(** * dependency_visualizer: parser, graph builder and Graphviz serializer

    A shallow embedding of [dependency_visualizer.py]:
    - [parse_packages_data]    (the metadata parser),
    - [build_dependency_graph] (the depth-first graph builder),
    - [generate_graphviz_code] (the serializer),
    together with the properties the specification states about them, and
    the pure steps of [download_packages_file] and [main].

    Conventions of the embedding.
    - A Python [str] is a [string]; a character is the code point it
      carries, so the texts covered are those with code points below 256.
    - A Python [dict] read only through lookups is a [gmap]; a [set] is a
      [gset].  The serializer, whose output depends on iteration order,
      receives the graph as the sequence of its items.
    - Python exceptions are values of [exn]; a function that may raise
      returns a [result]. *)

From Stdlib Require Import Ascii String List Permutation.
From stdpp Require Import base gmap sets list strings.

(** ** Exceptions *)

Inductive exn : Type :=
  | Exception (msg : string)
  | ValueError
  | KeyError
  | IndexError
  | RecursionError.

Inductive result (A : Type) : Type :=
  | Ok (a : A)
  | Raise (e : exn).

Arguments Ok {A} a.
Arguments Raise {A} e.

Global Instance exn_eq_dec : EqDecision exn.
Proof. solve_decision. Defined.

Global Instance result_eq_dec {A : Type} `{EqDecision A} :
  EqDecision (result A).
Proof. solve_decision. Defined.

(** Sequencing: an exception raised by the first computation propagates. *)
Global Instance result_bind : MBind result := λ A B k r,
  match r with
  | Ok a => k a
  | Raise e => Raise e
  end.

(** ** Python string primitives *)

Module Py.

(** [c.isspace()] for a code point below 256. *)
Definition isspace (c : ascii) : bool :=
  let n := nat_of_ascii c in
  ((9 <=? n) && (n <=? 13)) || ((28 <=? n) && (n <=? 32))
  || (n =? 133) || (n =? 160).

(** [s.lstrip()] *)
Fixpoint lstrip (s : string) : string :=
  match s with
  | EmptyString => EmptyString
  | String c s' => if isspace c then lstrip s' else s
  end.

(** [s.rstrip()] *)
Fixpoint rstrip (s : string) : string :=
  match s with
  | EmptyString => EmptyString
  | String c s' =>
      match rstrip s' with
      | EmptyString => if isspace c then EmptyString else String c EmptyString
      | r => String c r
      end
  end.

(** [s.strip()] *)
Definition strip (s : string) : string := lstrip (rstrip s).

(** [sep in s] for a one-character [sep]. *)
Fixpoint contains (sep : ascii) (s : string) : bool :=
  match s with
  | EmptyString => false
  | String c s' => if decide (c = sep) then true else contains sep s'
  end.

(** [s.split(sep)] for a one-character [sep]: never empty, one more
    element than there are separators. *)
Fixpoint split (sep : ascii) (s : string) : list string :=
  match s with
  | EmptyString => [EmptyString]
  | String c s' =>
      if decide (c = sep) then EmptyString :: split sep s'
      else match split sep s' with
           | h :: t => String c h :: t
           | [] => [String c EmptyString]
           end
  end.

(** [s.split(sep, 1)] for a one-character [sep]: the whole string when
    [sep] does not occur, else what precedes and what follows its first
    occurrence. *)
Fixpoint split1 (sep : ascii) (s : string) : list string :=
  match s with
  | EmptyString => [EmptyString]
  | String c s' =>
      if decide (c = sep) then [EmptyString; s']
      else match split1 sep s' with
           | h :: t => String c h :: t
           | [] => [String c EmptyString]
           end
  end.

(** [sep.join(l)] *)
Fixpoint join (sep : string) (l : list string) : string :=
  match l with
  | [] => EmptyString
  | [x] => x
  | x :: l' => x +:+ sep +:+ join sep l'
  end.

(** [s.rstrip(ch)] for a one-character [ch]. *)
Fixpoint rstrip_char (ch : ascii) (s : string) : string :=
  match s with
  | EmptyString => EmptyString
  | String c s' =>
      match rstrip_char ch s' with
      | EmptyString =>
          if decide (c = ch) then EmptyString else String c EmptyString
      | r => String c r
      end
  end.

End Py.

(** ** The metadata parser *)

(** [[dep.strip().split(' ')[0] for dep in depends.split(',')]] *)
Fixpoint first_tokens (entries : list string) : result (list string) :=
  match entries with
  | [] => Ok []
  | dep :: rest =>
      match Py.split " " (Py.strip dep) !! 0%nat with
      | Some name => names ← first_tokens rest ; Ok (name :: names)
      | None => Raise IndexError
      end
  end.

(** The right-hand side of line 72: the comprehension when [depends] is a
    non-empty string, the empty list otherwise. *)
Definition depends_list (depends : string) : result (list string) :=
  if decide (depends = "") then Ok []
  else first_tokens (Py.split "," depends).

(** The loop state: [packages_info] and [current_package]. *)
Record parser_state : Type := ParserState {
  packages_info : gmap string (list string);
  current_package : gmap string string
}.

Global Instance parser_state_eq_dec : EqDecision parser_state.
Proof. solve_decision. Defined.

(** The branch taken on a blank line (lines 69 to 74). *)
Definition commit_record (st : parser_state) : result parser_state :=
  if decide ("Package" ∈ dom (current_package st)) then
    match current_package st !! "Package" with
    | Some package_name =>
        let depends := default "" (current_package st !! "Depends") in
        depends ← depends_list depends ;
        Ok (ParserState (<[package_name := depends]> (packages_info st)) ∅)
    | None => Raise KeyError
    end
  else Ok (ParserState (packages_info st) ∅).

(** The branch taken on any other line (lines 76 to 78). *)
Definition record_field (line : string) (st : parser_state)
  : result parser_state :=
  if Py.contains ":" line then
    match Py.split1 ":" line with
    | [key; value] =>
        Ok (ParserState (packages_info st)
              (<[Py.strip key := Py.strip value]> (current_package st)))
    | _ => Raise ValueError
    end
  else Ok st.

(** The body of the [for line in ...] loop. *)
Definition parse_line (line : string) (st : parser_state)
  : result parser_state :=
  if decide (Py.strip line = "") then commit_record st
  else record_field line st.

(** The loop itself. *)
Fixpoint parse_lines (lines : list string) (st : parser_state)
  : result parser_state :=
  match lines with
  | [] => Ok st
  | line :: rest => st' ← parse_line line st ; parse_lines rest st'
  end.

Definition parse_packages_data (packages_data : string)
  : result (gmap string (list string)) :=
  st ← parse_lines (Py.split "010" packages_data) (ParserState ∅ ∅) ;
  Ok (packages_info st).

(** ** The dependency graph builder *)

(** The two variables the nested [dfs] closes over. *)
Record dfs_state : Type := DfsState {
  graph : gmap string (gset string);
  visited : gset string
}.

Global Instance dfs_state_eq_dec : EqDecision dfs_state.
Proof. solve_decision. Defined.

(** [graph[pkg]] on a [defaultdict(set)]: reading a missing key stores the
    empty set under it. *)
Definition touch (pkg : string) (g : gmap string (gset string))
  : gmap string (gset string) :=
  match g !! pkg with
  | Some _ => g
  | None => <[pkg := ∅]> g
  end.

(** [graph[pkg].add(dep)] *)
Definition add_edge (pkg dep : string) (g : gmap string (gset string))
  : gmap string (gset string) :=
  <[pkg := default ∅ (g !! pkg) ∪ {[dep]}]> g.

(** A [for] loop whose body may fail. *)
Fixpoint for_each {A S : Type} (body : A → S → option S)
    (l : list A) (st : S) : option S :=
  match l with
  | [] => Some st
  | x :: l' =>
      match body x st with
      | Some st' => for_each body l' st'
      | None => None
      end
  end.

(** [dfs], with the depth of the Python call stack made explicit: [depth]
    bounds the number of nested calls, and [None] is the overflow. *)
Fixpoint dfs (depth : nat) (index : gmap string (list string))
    (pkg : string) (st : dfs_state) : option dfs_state :=
  match depth with
  | O => None
  | S depth' =>
      if decide (pkg ∈ visited st) then Some st
      else
        let st1 := DfsState (touch pkg (graph st)) ({[pkg]} ∪ visited st) in
        let dependencies := default [] (index !! pkg) in
        for_each
          (λ dep st, dfs depth' index dep
                       (DfsState (add_edge pkg dep (graph st)) (visited st)))
          dependencies st1
  end.

(** Every name the traversal can meet: the keys of the index and the names
    in its dependency lists. *)
Definition names (index : gmap string (list string)) : gset string :=
  dom index ∪ ⋃ (list_to_set <$> (map_to_list index).*2).

(** [build_dependency_graph].  The source recurses under the recursion
    limit of the interpreter: [limit] is the number of nested calls of
    [dfs] it allows, and the [RecursionError] of a deeper traversal leaves
    the function. *)
Definition build_dependency_graph (limit : nat) (package_name : string)
    (index : gmap string (list string))
  : result (gmap string (gset string)) :=
  if decide (package_name ∈ dom index) then
    match dfs limit index package_name (DfsState ∅ ∅) with
    | Some st => Ok (graph st)
    | None => Raise RecursionError
    end
  else
    Raise (Exception ("Package " +:+ package_name
                      +:+ " not found in repository.")).

(** ** Vocabulary of the parser's properties *)

(** The field a line contributes to the current record: the key and value
    stored by line 78, if the line has a colon. *)
Definition field_of (line : string) : option (string * string) :=
  if Py.contains ":" line then
    match Py.split1 ":" line with
    | [key; value] => Some (Py.strip key, Py.strip value)
    | _ => None
    end
  else None.

Definition key_of (line : string) : option string := fst <$> field_of line.

(** [current_package] after the lines of a record have been read. *)
Definition record_fields (lines : list string) (cur : gmap string string)
  : gmap string string :=
  foldl (λ cur line,
           match field_of line with
           | Some (key, value) => <[key := value]> cur
           | None => cur
           end) cur lines.

(** A string without a line break: one element of [split('\n')]. *)
Definition single_line (line : string) : Prop :=
  Py.contains "010" line = false.

(** A line of a record: not blank, and a single line. *)
Definition record_line (line : string) : Prop :=
  Py.strip line ≠ "" ∧ single_line line.

(** A line that ends a record: empty or whitespace only. *)
Definition blank_line (line : string) : Prop :=
  Py.strip line = "" ∧ single_line line.

(** The field [key] occurs at most once among the lines. *)
Definition unique_key (key : string) (lines : list string) : Prop :=
  Forall (λ l1,
    Forall (λ l2, key_of l1 = Some key → key_of l2 = Some key → l1 = l2)
      lines) lines.

(** Every character of the string satisfies [P]. *)
Fixpoint all_chars (P : ascii → bool) (s : string) : bool :=
  match s with
  | EmptyString => true
  | String c s' => P c && all_chars P s'
  end.

(** A well-formed name: not empty, free of whitespace and of commas. *)
Definition is_name (s : string) : Prop :=
  s ≠ "" ∧
  all_chars (λ c, negb (Py.isspace c) && bool_decide (c ≠ ","%char)) s = true.

(** The lines of a committed record named [X]: record lines, among them
    the one [Package] field. *)
Definition package_record (X : string) (lines : list string) : Prop :=
  Forall record_line lines ∧
  unique_key "Package" lines ∧
  ("Package: " +:+ X) ∈ lines ∧
  Py.strip X = X.

(** The lines end at a record boundary: there are none, or the last one
    is blank. *)
Definition ends_records (lines : list string) : Prop :=
  from_option (λ line, Py.strip line = "") True (last lines).

Global Instance single_line_dec line : Decision (single_line line).
Proof. unfold single_line. apply _. Defined.

Global Instance record_line_dec line : Decision (record_line line).
Proof. unfold record_line. apply _. Defined.

Global Instance blank_line_dec line : Decision (blank_line line).
Proof. unfold blank_line. apply _. Defined.

Global Instance unique_key_dec key lines : Decision (unique_key key lines).
Proof. unfold unique_key. apply _. Defined.

Global Instance is_name_dec s : Decision (is_name s).
Proof. unfold is_name. apply _. Defined.

Global Instance package_record_dec X lines :
  Decision (package_record X lines).
Proof. unfold package_record. apply _. Defined.

Global Instance ends_records_dec lines : Decision (ends_records lines).
Proof.
  unfold ends_records. destruct (last lines); simpl; apply _.
Defined.

(** ** Vocabulary of the builder's properties *)

(** [packages_info.get(pkg, [])] *)
Definition deps_of (index : gmap string (list string)) (pkg : string)
  : list string :=
  default [] (index !! pkg).

(** A dependency edge of the index. *)
Definition edge (index : gmap string (list string)) (p d : string) : Prop :=
  d ∈ deps_of index p.

(** Reachability by zero or more dependency edges. *)
Definition reachable (index : gmap string (list string)) (root p : string)
  : Prop :=
  rtc (edge index) root p.

(** The loop body of [dfs] at call depth [depth]. *)
Definition visit_dep (index : gmap string (list string)) (depth : nat)
    (pkg dep : string) (st : dfs_state) : option dfs_state :=
  dfs depth index dep (DfsState (add_edge pkg dep (graph st)) (visited st)).

(** The call returned, and what it visited stays inside [U]. *)
Definition returns_within (U : gset string) (st : dfs_state)
    (r : option dfs_state) : Prop :=
  ∃ st', r = Some st' ∧ visited st ⊆ visited st' ∧ visited st' ⊆ U.

(** [st'] extends [st]: the keys of the graph are still the visited
    names, nothing visited is forgotten, and every name visited in
    between is finished (its entry is the set of its dependencies, all of
    them visited) and was reached from one of the names in [from]. *)
Definition extends (index : gmap string (list string))
    (from : string → Prop) (st st' : dfs_state) : Prop :=
  dom (graph st') = visited st' ∧
  visited st ⊆ visited st' ∧
  ∀ p, p ∈ visited st' → p ∉ visited st →
    graph st' !! p = Some (list_to_set (deps_of index p)) ∧
    (∀ d, edge index p d → d ∈ visited st') ∧
    ∃ r, from r ∧ reachable index r p.

(** What one call [dfs(pkg)] achieves. *)
Definition dfs_post (index : gmap string (list string)) (pkg : string)
    (st st' : dfs_state) : Prop :=
  extends index (eq pkg) st st' ∧
  pkg ∈ visited st' ∧
  ∀ p, p ∈ visited st → graph st' !! p = graph st !! p.

(** ** The serializer *)

(** The double quote and the line feed, by their codes. *)
Definition dquote : string := String "034" EmptyString.

Definition newline : string := String "010" EmptyString.

(** [f'    "{pkg}" -> "{dep}";'] *)
Definition edge_line (pkg dep : string) : string :=
  "    " +:+ dquote +:+ pkg +:+ dquote +:+ " -> "
  +:+ dquote +:+ dep +:+ dquote +:+ ";".

(** The graph as the serializer sees it: [graph.items()] in iteration
    order, each dependency set in its own iteration order. *)
Definition generate_graphviz_code (items : list (string * list string))
  : string :=
  let lines := ["digraph G {"] in
  let lines :=
    foldl (λ lines '(pkg, deps),
             foldl (λ lines dep, lines ++ [edge_line pkg dep]) lines deps)
          lines items in
  let lines := lines ++ ["}"] in
  Py.join newline lines.

(** A list is an iteration order of a set when it lists each element of
    the set exactly once. *)
Definition iterates (s : gset string) (l : list string) : Prop :=
  NoDup l ∧ list_to_set l = s.

(** ** The rest of the program *)

(** Line 45 of [download_packages_file]: the address of the index. *)
Definition packages_url (repo_url : string) : string :=
  Py.rstrip_char "/" repo_url +:+ "/Packages.gz".

(** Lines 136 and 137 of [main]: the index of the downloaded text, then
    the graph of the configured name.  An exception of either call leaves
    the [try] block.  [limit] is the number of nested calls of [dfs] the
    interpreter allows. *)
Definition main_graph (limit : nat) (name packages_data : string)
  : result (gmap string (gset string)) :=
  index ← parse_packages_data packages_data;
  build_dependency_graph limit name index.

(** ** Vocabulary of the further properties *)

(** A string of whitespace only. *)
Definition all_space (s : string) : Prop := all_chars Py.isspace s = true.

(** [line'] is [line] between two runs of whitespace: indented, or
    followed by blanks or a carriage return. *)
Definition padded (line line' : string) : Prop :=
  ∃ ws1 ws2, all_space ws1 ∧ all_space ws2 ∧ line' = ws1 +:+ line +:+ ws2.

(** [s.count(c)] *)
Fixpoint count_char (c : ascii) (s : string) : nat :=
  match s with
  | EmptyString => 0
  | String c' s' => (if decide (c' = c) then 1 else 0) + count_char c s'
  end.

(** The string holds none of the characters [cs]. *)
Definition free_of (cs : list ascii) (s : string) : Prop :=
  Forall (λ c, Py.contains c s = false) cs.

(** An entry of a [Depends] value: a name, then nothing or a space and
    anything without a comma. *)
Definition depends_entry (e : string * string) : Prop :=
  is_name e.1 ∧
  (e.2 = "" ∨ ∃ junk, e.2 = String " " junk) ∧
  Py.contains "," e.2 = false.

(** The text of the entries of a [Depends] value. *)
Definition entries_text (es : list (string * string)) : list string :=
  (λ e, e.1 +:+ e.2) <$> es.

(** Two open records that agree on the two fields the parser reads. *)
Definition same_record (cur cur' : gmap string string) : Prop :=
  cur !! "Package" = cur' !! "Package" ∧ cur !! "Depends" = cur' !! "Depends".

(** The edge statements of the output, in order. *)
Definition edge_statements (items : list (string * list string))
  : list string :=
  items ≫= λ '(pkg, deps), edge_line pkg <$> deps.

(** [items] is an iteration of the graph [g]: each key once, in some
    order, with an iteration order of its set. *)
Definition graph_items (g : gmap string (gset string))
    (items : list (string * list string)) : Prop :=
  NoDup items.*1 ∧
  (∀ k, k ∈ dom g ↔ k ∈ items.*1) ∧
  Forall (λ '(k, l), ∃ s, g !! k = Some s ∧ iterates s l) items.

Global Instance all_space_dec s : Decision (all_space s).
Proof. unfold all_space. apply _. Defined.

Global Instance free_of_dec cs s : Decision (free_of cs s).
Proof. unfold free_of. apply _. Defined.

Global Instance depends_entry_dec e : Decision (depends_entry e).
Proof.
  unfold depends_entry.
  assert (Decision (∃ junk, e.2 = String " " junk)).
  { destruct (e.2) as [|c junk]; [right; by intros [? ?]|].
    destruct (decide (c = " "%char)) as [->|Hc]; [left; by eexists|].
    right. intros [? [= ? _]]. done. }
  apply _.
Defined.

(** ** Scenarios of the specification *)

(** The index of the cycle scenario: [A] depends on [B] and [B] on [A]. *)
Definition cyclic_index : gmap string (list string) :=
  {[ "A" := ["B"]; "B" := ["A"] ]}.

(** The graph the cycle scenario expects. *)
Definition cyclic_graph : gmap string (gset string) :=
  {[ "A" := {["B"]}; "B" := {["A"]} ]}.

(** The index of [test_build_dependency_graph]; [libgcc1] is not a key. *)
Definition test_index : gmap string (list string) :=
  {[ "bash" := ["libc6"; "libtinfo6"];
     "libc6" := ["libgcc1"];
     "libtinfo6" := [] ]}.

(** The carriage return, by its code. *)
Definition cr : string := String "013" EmptyString.

(** The index of the dangling-dependency scenario: [A] depends on [B],
    which the index does not define. *)
Definition dangling_index : gmap string (list string) :=
  {[ "A" := ["B"] ]}.

(** * The repository's tests, run on the embedding *)

(** [test_parse_packages_data]: the indented text of the test, whose last
    line is whitespace only. *)
Example test_parse_packages_data :
  parse_packages_data "
        Package: bash
        Depends: libc6 (>= 2.15), libtinfo6 (>= 6)

        Package: libc6
        Depends: libgcc1

        Package: libtinfo6
        Depends:
        "
  = Ok {[ "bash" := ["libc6"; "libtinfo6"];
          "libc6" := ["libgcc1"];
          "libtinfo6" := [] ]}.
Proof. compute_done. Qed.

(** [test_build_dependency_graph] *)
Example test_build_dependency_graph :
  build_dependency_graph 1000 "bash" test_index
  = Ok {[ "bash" := {[ "libc6"; "libtinfo6" ]};
          "libc6" := {[ "libgcc1" ]};
          "libtinfo6" := ∅;
          "libgcc1" := ∅ ]}.
Proof. compute_done. Qed.

(** [test_generate_graphviz_code], with the sets iterated in the order
    they are written. *)
Example test_generate_graphviz_code :
  generate_graphviz_code
    [("bash", ["libc6"; "libtinfo6"]); ("libc6", ["libgcc1"])]
  = Py.join newline
      ["digraph G {";
       edge_line "bash" "libc6";
       edge_line "bash" "libtinfo6";
       edge_line "libc6" "libgcc1";
       "}"].
Proof. reflexivity. Qed.

(** * Properties of the graph builder *)

Section Builder.

Variable index : gmap string (list string).

Lemma dfs_unfold depth pkg st :
  dfs (S depth) index pkg st =
    if decide (pkg ∈ visited st) then Some st
    else for_each (visit_dep index depth pkg) (deps_of index pkg)
           (DfsState (touch pkg (graph st)) ({[pkg]} ∪ visited st)).
Proof. reflexivity. Qed.

(** ** Termination *)

Lemma for_each_mono {A S : Type} (f g : A → S → option S) l st r :
  (∀ x st r, f x st = Some r → g x st = Some r) →
  for_each f l st = Some r → for_each g l st = Some r.
Proof.
  intros Hfg. revert st.
  induction l as [|x l IH]; intros st; simpl; [done|].
  destruct (f x st) as [st1|] eqn:Hf; [|done].
  rewrite (Hfg _ _ _ Hf). apply IH.
Qed.

(** A deeper stack does not change the result. *)
Lemma dfs_depth_mono depth depth' pkg st r :
  depth ≤ depth' →
  dfs depth index pkg st = Some r → dfs depth' index pkg st = Some r.
Proof.
  revert depth' pkg st r.
  induction depth as [|depth IH]; intros depth' pkg st r Hle; [done|].
  destruct depth' as [|depth']; [lia|].
  rewrite !dfs_unfold. case_decide; [done|].
  apply for_each_mono. intros dep st1 r1. apply IH. lia.
Qed.

Lemma names_key p : p ∈ dom index → p ∈ names index.
Proof. unfold names. set_solver. Qed.

Lemma names_closed p d : edge index p d → d ∈ names index.
Proof.
  unfold edge, deps_of, names. intros Hd.
  destruct (index !! p) as [l|] eqn:Hp; simpl in Hd;
    [|by apply elem_of_nil in Hd].
  apply elem_of_union_r, elem_of_union_list.
  exists (list_to_set l). split; [|by apply elem_of_list_to_set].
  apply list_elem_of_fmap. exists l. split; [done|].
  apply list_elem_of_fmap. exists (p, l). split; [done|].
  by apply elem_of_map_to_list.
Qed.

Section Termination.

(** Any set of names closed under dependency edges. *)
Variable U : gset string.
Hypothesis U_closed : ∀ p d, p ∈ U → edge index p d → d ∈ U.

Lemma for_each_returns depth pkg ds st :
  (∀ dep st, dep ∈ U → visited st ⊆ U →
     size (U ∖ visited st) < depth →
     returns_within U st (dfs depth index dep st)) →
  (∀ d, d ∈ ds → d ∈ U) →
  visited st ⊆ U →
  size (U ∖ visited st) < depth →
  returns_within U st (for_each (visit_dep index depth pkg) ds st).
Proof.
  intros IH. revert st.
  induction ds as [|d ds IHds]; intros st Hds Hvis Hsize; simpl.
  - exists st. done.
  - destruct (IH d (DfsState (add_edge pkg d (graph st)) (visited st)))
      as (st1 & Hst1 & Hsub1 & HU1); simpl; [set_solver|done|done|].
    unfold visit_dep at 1. rewrite Hst1. simpl in Hsub1.
    destruct (IHds st1) as (st2 & Hst2 & Hsub2 & HU2);
      [set_solver|done| |].
    + eapply Nat.le_lt_trans; [|exact Hsize].
      apply subseteq_size. set_solver.
    + exists st2. split; [done|]. split; [set_solver|done].
Qed.

Lemma dfs_returns depth pkg st :
  pkg ∈ U → visited st ⊆ U →
  size (U ∖ visited st) < depth →
  returns_within U st (dfs depth index pkg st).
Proof.
  revert pkg st.
  induction depth as [|depth IH]; intros pkg st Hpkg Hvis Hsize; [lia|].
  rewrite dfs_unfold. case_decide as Hin.
  - exists st. done.
  - destruct (for_each_returns depth pkg (deps_of index pkg)
                (DfsState (touch pkg (graph st)) ({[pkg]} ∪ visited st)))
      as (st' & Hst' & Hsub & HU); simpl.
    + exact IH.
    + intros d Hd. by apply (U_closed pkg).
    + set_solver.
    + assert (size (U ∖ ({[pkg]} ∪ visited st)) < size (U ∖ visited st));
        [|lia].
      apply subset_size. set_solver.
    + exists st'. split; [done|]. simpl in Hsub. split; [set_solver|done].
Qed.

End Termination.

(** A call leaves its package visited and forgets no visited package. *)
Lemma for_each_visited_mono depth pkg ds st st' :
  (∀ dep st st', dfs depth index dep st = Some st' →
     dep ∈ visited st' ∧ visited st ⊆ visited st') →
  for_each (visit_dep index depth pkg) ds st = Some st' →
  visited st ⊆ visited st'.
Proof.
  intros IH. revert st.
  induction ds as [|d ds IHds]; intros st Hrun; simpl in Hrun.
  - by injection Hrun as <-.
  - destruct (visit_dep index depth pkg d st) as [st1|] eqn:Hd; [|done].
    apply IH in Hd as [_ Hsub]. simpl in Hsub.
    etrans; [exact Hsub|]. by apply IHds.
Qed.

Lemma dfs_visited_mono depth pkg st st' :
  dfs depth index pkg st = Some st' →
  pkg ∈ visited st' ∧ visited st ⊆ visited st'.
Proof.
  revert pkg st st'.
  induction depth as [|depth IH]; intros pkg st st' Hrun; [done|].
  rewrite dfs_unfold in Hrun. case_decide as Hin.
  - by injection Hrun as <-.
  - apply for_each_visited_mono in Hrun; [|exact IH]. simpl in Hrun.
    split; [apply Hrun|]; set_solver.
Qed.

(** With more frames than the index has names the traversal returns. *)
Lemma dfs_returns_from_root depth root :
  root ∈ dom index →
  size (names index) < depth →
  is_Some (dfs depth index root (DfsState ∅ ∅)).
Proof.
  intros Hroot Hdepth.
  destruct (dfs_returns (names index)) with
    (depth := depth) (pkg := root) (st := DfsState ∅ ∅)
    as (st' & Hst' & _).
  - intros p d _. apply names_closed.
  - by apply names_key.
  - simpl. set_solver.
  - simpl. eapply Nat.le_lt_trans; [|exact Hdepth].
    apply subseteq_size. set_solver.
  - by exists st'.
Qed.

(** ** What a call of [dfs] leaves behind *)

Lemma add_edge_lookup pkg dep g acc :
  g !! pkg = Some acc →
  add_edge pkg dep g !! pkg = Some (acc ∪ {[dep]}).
Proof. intros Hg. unfold add_edge. by rewrite lookup_insert_eq, Hg. Qed.

Lemma add_edge_lookup_ne pkg dep g p :
  p ≠ pkg → add_edge pkg dep g !! p = g !! p.
Proof. intros Hne. unfold add_edge. by rewrite lookup_insert_ne. Qed.

Lemma add_edge_dom pkg dep g :
  pkg ∈ dom g → dom (add_edge pkg dep g) = dom g.
Proof. intros Hin. unfold add_edge. rewrite dom_insert_L. set_solver. Qed.

Lemma touch_fresh pkg g : pkg ∉ dom g → touch pkg g = <[pkg := ∅]> g.
Proof.
  intros Hnin. unfold touch.
  apply not_elem_of_dom in Hnin. by rewrite Hnin.
Qed.

Lemma for_each_post depth pkg :
  (∀ dep st st', dfs depth index dep st = Some st' →
     dom (graph st) = visited st → dfs_post index dep st st') →
  ∀ ds st st' acc,
    for_each (visit_dep index depth pkg) ds st = Some st' →
    dom (graph st) = visited st →
    pkg ∈ visited st →
    graph st !! pkg = Some acc →
    extends index (λ r, r ∈ ds) st st' ∧
    (∀ d, d ∈ ds → d ∈ visited st') ∧
    graph st' !! pkg = Some (acc ∪ list_to_set ds) ∧
    ∀ p, p ∈ visited st → p ≠ pkg → graph st' !! p = graph st !! p.
Proof.
  intros IH ds.
  induction ds as [|d ds IHds]; intros st st' acc Hrun Hdom Hpkg Hacc;
    simpl in Hrun.
  - injection Hrun as <-.
    split; [split; [done|split; [done|by intros p Hp Hnp]]|].
    split; [intros d Hd; by apply elem_of_nil in Hd|].
    split; [|done]. simpl. by rewrite union_empty_r_L.
  - destruct (visit_dep index depth pkg d st) as [st1|] eqn:Hd; [|done].
    unfold visit_dep in Hd.
    apply IH in Hd as ((Hdom1 & Hsub1 & Hnew1) & Hd1 & Hold1); simpl in *;
      [|rewrite add_edge_dom; [done|by rewrite Hdom]].
    assert (graph st1 !! pkg = Some (acc ∪ {[d]})) as Hacc1.
    { rewrite Hold1 by done. by apply add_edge_lookup. }
    destruct (IHds st1 st' (acc ∪ {[d]}) Hrun Hdom1)
      as ((Hdom' & Hsub' & Hnew') & Hds' & Hacc' & Hold');
      [set_solver|done|].
    split; [split; [done|split; [set_solver|]]|split; [|split]].
    + intros p Hp Hnp.
      destruct (decide (p ∈ visited st1)) as [Hp1|Hp1].
      * destruct (Hnew1 p Hp1 Hnp) as (Hg & Hcl & r & <- & Hr).
        assert (p ≠ pkg) as Hne by (intros ->; done).
        split; [|split].
        -- by rewrite Hold'.
        -- intros d' Hd'. apply Hsub'. by apply Hcl.
        -- exists d. split; [by left|done].
      * destruct (Hnew' p Hp Hp1) as (Hg & Hcl & r & Hr & Hrp).
        split; [done|]. split; [done|].
        exists r. split; [by right|done].
    + intros d' [->|Hd']%elem_of_cons; [by apply Hsub'|by apply Hds'].
    + rewrite Hacc'. simpl. by rewrite (assoc_L (∪)).
    + intros p Hp Hne.
      rewrite Hold' by (try done; by apply Hsub1).
      rewrite Hold1 by done. by apply add_edge_lookup_ne.
Qed.

Lemma dfs_post_holds depth pkg st st' :
  dfs depth index pkg st = Some st' →
  dom (graph st) = visited st →
  dfs_post index pkg st st'.
Proof.
  revert pkg st st'.
  induction depth as [|depth IH]; intros pkg st st' Hrun Hdom; [done|].
  rewrite dfs_unfold in Hrun. case_decide as Hin.
  - injection Hrun as <-.
    split; [split; [done|split; [done|by intros p Hp Hnp]]|done].
  - assert (pkg ∉ dom (graph st)) as Hfresh by (by rewrite Hdom).
    rewrite (touch_fresh _ _ Hfresh) in Hrun.
    eapply (for_each_post depth pkg IH) with (acc := ∅) in Hrun
      as ((Hdom' & Hsub' & Hnew') & Hds' & Hacc' & Hold'); simpl in *.
    + split; [split; [done|split; [set_solver|]]|split; [set_solver|]].
      * intros p Hp Hnp.
        destruct (decide (p = pkg)) as [->|Hne].
        -- split; [|split].
           ++ rewrite Hacc'. by rewrite union_empty_l_L.
           ++ exact Hds'.
           ++ exists pkg. split; [done|]. apply rtc_refl.
        -- destruct (Hnew' p Hp) as (Hg & Hcl & r & Hr & Hrp);
             [set_solver|].
           split; [done|]. split; [done|].
           exists pkg. split; [done|]. by eapply rtc_l.
      * intros p Hp.
        assert (p ≠ pkg) as Hne by (intros ->; done).
        rewrite Hold' by (try done; set_solver).
        by rewrite lookup_insert_ne.
    + rewrite dom_insert_L, Hdom. done.
    + set_solver.
    + by rewrite lookup_insert_eq.
Qed.

(** A name is visited only if it is reachable, and everything reachable
    from a finished name is visited. *)
Lemma extends_reachable root st' p :
  extends index (eq root) (DfsState ∅ ∅) st' →
  root ∈ visited st' →
  p ∈ visited st' ↔ reachable index root p.
Proof.
  intros (Hdom & _ & Hnew) Hroot. simpl in Hnew.
  assert (∀ q, q ∈ visited st' → reachable index root q) as Hext_root.
  { intros q Hq. destruct (Hnew q Hq) as (_ & _ & r & <- & Hr);
      [set_solver|done]. }
  split; [by apply Hext_root|].
  - assert (∀ q d, q ∈ visited st' → edge index q d → d ∈ visited st') as Hcl.
    { intros q d Hq. destruct (Hnew q Hq) as (_ & Hcl & _); [set_solver|].
      apply Hcl. }
    intros Hr. clear Hext_root Hnew. revert Hroot.
    induction Hr as [|x y z Hxy Hyz IH]; intros Hx; [done|].
    apply IH. by apply (Hcl x).
Qed.

(** The graph [build_dependency_graph] returns: its keys are the names
    reachable from the root, and each key carries the set of its
    dependencies. *)
Lemma build_dependency_graph_spec limit root g :
  build_dependency_graph limit root index = Ok g →
  root ∈ dom index ∧
  (∀ p, p ∈ dom g ↔ reachable index root p) ∧
  (∀ p, p ∈ dom g → g !! p = Some (list_to_set (deps_of index p))).
Proof.
  unfold build_dependency_graph. case_decide as Hroot; [|done].
  destruct (dfs _ _ _ _) as [st'|] eqn:Hrun; [|done].
  intros [= <-]. split; [done|].
  apply dfs_post_holds in Hrun as (Hext & Hin & _); [|simpl; set_solver].
  pose proof (λ p, extends_reachable root st' p Hext Hin) as Hreach.
  destruct Hext as (Hdom & _ & Hnew). rewrite Hdom. split; [done|].
  intros p Hp. destruct (Hnew p Hp) as (Hg & _); [set_solver|done].
Qed.

(** With more frames than the index has names [build] returns a graph. *)
Lemma build_dependency_graph_total limit root :
  root ∈ dom index →
  size (names index) < limit →
  ∃ g, build_dependency_graph limit root index = Ok g.
Proof.
  intros Hroot Hlimit. unfold build_dependency_graph.
  rewrite decide_True by done.
  destruct (dfs_returns_from_root limit root Hroot Hlimit) as [st' ->].
  by eexists.
Qed.

(** A graph returned under one limit is returned under every larger one. *)
Lemma build_dependency_graph_mono limit limit' root g :
  limit ≤ limit' →
  build_dependency_graph limit root index = Ok g →
  build_dependency_graph limit' root index = Ok g.
Proof.
  intros Hle. unfold build_dependency_graph. case_decide; [|done].
  destruct (dfs limit index root _) as [st|] eqn:Hrun; [|done].
  by rewrite (dfs_depth_mono limit limit' _ _ _ Hle Hrun).
Qed.

End Builder.

(** ** The claims about the builder *)

(** The only names reachable in the index [{a: [b]}] are [a] and [b]. *)
Lemma reachable_single_edge (a b p : string) :
  reachable {[ a := [b] ]} a p → p = a ∨ p = b.
Proof.
  intros Hr. apply rtc_inv_r in Hr as [->|(q & _ & Hqp)]; [by left|].
  right. unfold edge, deps_of in Hqp.
  destruct (decide (q = a)) as [->|Hne].
  - rewrite lookup_singleton_eq in Hqp. simpl in Hqp.
    by apply list_elem_of_singleton in Hqp.
  - rewrite lookup_singleton_ne in Hqp by done. by apply elem_of_nil in Hqp.
Qed.

(** Two nested calls are enough for the index [{a: [b]}]. *)
Lemma dfs_single_edge_returns (a b : string) :
  a ≠ b → is_Some (dfs 2 {[ a := [b] ]} a (DfsState ∅ ∅)).
Proof.
  intros Hab. rewrite dfs_unfold. simpl. rewrite decide_False by set_solver.
  unfold deps_of at 1. rewrite lookup_singleton_eq. simpl.
  unfold visit_dep. rewrite dfs_unfold. simpl.
  rewrite decide_False by set_solver.
  unfold deps_of. rewrite lookup_singleton_ne by done. simpl. by eexists.
Qed.

(** C1, as the specification states it, fails: in the index [{A: [B]}]
    the name [B] is not a key, yet under no recursion limit is the graph
    built from [A] the graph [{A: {B}}]; whenever two nested calls are
    allowed a graph is returned, and [B] is a key of it. *)
Lemma dangling_dependency_gets_a_node :
  ("B" ∉ dom dangling_index) ∧
  (∀ limit,
     build_dependency_graph limit "A" dangling_index
       ≠ Ok {[ "A" := {["B"]} ]}) ∧
  (∀ limit, 2 ≤ limit →
     ∃ g, build_dependency_graph limit "A" dangling_index = Ok g
          ∧ "B" ∈ dom g).
Proof.
  split; [compute_done|]. split.
  - intros limit Hg.
    apply build_dependency_graph_spec in Hg as (_ & Hkeys & _).
    assert ("B" ∈ dom ({[ "A" := {["B"]} ]} : gmap string (gset string)))
      as HB; [|revert HB; compute_done].
    apply Hkeys, rtc_once. unfold edge. compute_done.
  - intros limit Hlimit. exists {[ "A" := {["B"]}; "B" := ∅ ]}.
    split; [|compute_done].
    apply (build_dependency_graph_mono dangling_index 2 limit); [done|].
    compute_done.
Qed.

(** C1, amended.  For the index [{A: [B]}] where [B] is not a key of the
    index, [build('A', index)] returns exactly [{A: {B}, B: {}}], two
    nested calls of [dfs] being allowed.  In general a dependency name
    absent from the index is a key of the returned graph whose dependency
    set is empty: it is given its own node, and is not expanded
    further. *)
Theorem build_dangling_dependency :
  (∀ (a b : string) (index : gmap string (list string)) (limit : nat),
     index = {[ a := [b] ]} → b ∉ dom index → 2 ≤ limit →
     build_dependency_graph limit a index = Ok {[ a := {[b]}; b := ∅ ]}) ∧
  (∀ limit root index g,
     build_dependency_graph limit root index = Ok g →
     ∀ p s d, g !! p = Some s → d ∈ s → d ∉ dom index → g !! d = Some ∅).
Proof.
  split.
  - intros a b index limit -> Hb Hlimit.
    assert (a ≠ b) as Hab by set_solver. clear Hb.
    assert (∃ g', build_dependency_graph 2 a {[ a := [b] ]} = Ok g')
      as [g' Hg'].
    { unfold build_dependency_graph. rewrite decide_True by set_solver.
      destruct (dfs_single_edge_returns a b Hab) as [st ->]. by eexists. }
    apply (build_dependency_graph_mono _ 2 limit) in Hg'; [|done].
    rewrite Hg'. f_equal.
    apply build_dependency_graph_spec in Hg' as (_ & Hkeys & Hvals).
    assert (reachable {[ a := [b] ]} a a) as Ha by apply rtc_refl.
    assert (reachable {[ a := [b] ]} a b) as Hb.
    { apply rtc_once. unfold edge, deps_of.
      rewrite lookup_singleton_eq. simpl. by left. }
    apply map_eq. intros p.
    destruct (decide (p = a)) as [->|Hpa].
    { rewrite lookup_insert_eq, (Hvals a) by (by apply Hkeys).
      unfold deps_of. rewrite lookup_singleton_eq. simpl.
      by rewrite union_empty_r_L. }
    rewrite lookup_insert_ne by done.
    destruct (decide (p = b)) as [->|Hpb].
    { rewrite lookup_singleton_eq, (Hvals b) by (by apply Hkeys).
      unfold deps_of. by rewrite lookup_singleton_ne. }
    rewrite lookup_singleton_ne by done.
    apply not_elem_of_dom. rewrite Hkeys.
    intros [?|?]%reachable_single_edge; done.
  - intros limit root index g Hg p s d Hp Hd Hnd.
    apply build_dependency_graph_spec in Hg as (_ & Hkeys & Hvals).
    assert (p ∈ dom g) as Hpg by (apply elem_of_dom; eauto).
    rewrite (Hvals p Hpg) in Hp. injection Hp as <-.
    apply elem_of_list_to_set in Hd.
    assert (d ∈ dom g) as Hdg.
    { apply Hkeys. eapply rtc_r; [by apply Hkeys|done]. }
    rewrite (Hvals d Hdg). unfold deps_of.
    apply not_elem_of_dom in Hnd. by rewrite Hnd.
Qed.

Lemma build_dangling_dependency_witness :
  build_dependency_graph 2 "A" dangling_index
    = Ok {[ "A" := {["B"]}; "B" := ∅ ]} ∧
  ∃ g, build_dependency_graph 1000 "bash" test_index = Ok g ∧
       g !! "libgcc1" = Some ∅.
Proof.
  destruct build_dangling_dependency as [Hscenario Hleaf]. split.
  - apply Hscenario; [reflexivity|compute_done|lia].
  - exists {[ "bash" := {[ "libc6"; "libtinfo6" ]};
              "libc6" := {[ "libgcc1" ]};
              "libtinfo6" := ∅;
              "libgcc1" := ∅ ]}.
    assert (build_dependency_graph 1000 "bash" test_index
            = Ok {[ "bash" := {[ "libc6"; "libtinfo6" ]};
                    "libc6" := {[ "libgcc1" ]};
                    "libtinfo6" := ∅;
                    "libgcc1" := ∅ ]}) as Hbuild by (compute_done).
    split; [exact Hbuild|].
    apply (Hleaf 1000 "bash" test_index _ Hbuild "libc6" {[ "libgcc1" ]}
             "libgcc1");
      compute_done.
Defined.

(** C2.  Whenever [build(root, index)] succeeds, the root is a key of the
    result, every key of the result is reachable from the root by zero or
    more dependency edges, and for every package of the result every
    dependency name it has in the index that is also a key of the index is
    a key of the result; so is every name recorded in its set. *)
Theorem build_closure (limit : nat) (root : string)
    (index : gmap string (list string)) (g : gmap string (gset string)) :
  build_dependency_graph limit root index = Ok g →
  root ∈ dom g ∧
  (∀ k, k ∈ dom g → reachable index root k) ∧
  (∀ p d, p ∈ dom g → d ∈ deps_of index p → d ∈ dom index → d ∈ dom g) ∧
  (∀ p s d, g !! p = Some s → d ∈ s → d ∈ dom index → d ∈ dom g).
Proof.
  intros Hg. apply build_dependency_graph_spec in Hg as (_ & Hkeys & Hvals).
  split; [apply Hkeys, rtc_refl|]. split; [intros k; apply Hkeys|].
  assert (∀ p d, p ∈ dom g → d ∈ deps_of index p → d ∈ dom g) as Hclosed.
  { intros p d Hp Hd. apply Hkeys. eapply rtc_r; [by apply Hkeys|done]. }
  split; [intros p d Hp Hd _; by apply (Hclosed p)|].
  intros p s d Hp Hd _.
  assert (p ∈ dom g) as Hpg by (apply elem_of_dom; eauto).
  rewrite (Hvals p Hpg) in Hp. injection Hp as <-.
  apply elem_of_list_to_set in Hd. by apply (Hclosed p).
Qed.

Lemma build_closure_witness :
  "A" ∈ dom cyclic_graph ∧
  (∀ k, k ∈ dom cyclic_graph → reachable cyclic_index "A" k) ∧
  (∀ p d, p ∈ dom cyclic_graph → d ∈ deps_of cyclic_index p →
          d ∈ dom cyclic_index → d ∈ dom cyclic_graph) ∧
  (∀ p s d, cyclic_graph !! p = Some s → d ∈ s → d ∈ dom cyclic_index →
            d ∈ dom cyclic_graph).
Proof.
  apply (build_closure 3 "A" cyclic_index cyclic_graph). compute_done.
Defined.

(** C3.  On the cyclic index the traversal from [A] terminates: three
    nested calls are all it takes, with any deeper call stack [dfs]
    returns the same state, and [build('A', index)] returns exactly
    [{A: {B}, B: {A}}], so the edge from [B] into the already visited [A]
    is recorded.  The visited-set is what makes the recursion well
    founded, on every index: a call on a visited package returns at once
    and changes nothing, a call leaves its package visited and forgets no
    visited package, so each package is expanded at most once; and the
    traversal returns, and [build] with it, whenever more nested calls are
    allowed than the index has names. *)
Theorem build_cyclic_terminates :
  (∀ depth, 3 ≤ depth →
     dfs depth cyclic_index "A" (DfsState ∅ ∅)
       = Some (DfsState {[ "A" := {["B"]}; "B" := {["A"]} ]} {[ "A"; "B" ]})
     ∧ build_dependency_graph depth "A" cyclic_index
         = Ok {[ "A" := {["B"]}; "B" := {["A"]} ]}) ∧
  (∀ index depth pkg st,
     pkg ∈ visited st → dfs (S depth) index pkg st = Some st) ∧
  (∀ index depth pkg st st',
     dfs depth index pkg st = Some st' →
     pkg ∈ visited st' ∧ visited st ⊆ visited st') ∧
  (∀ index root depth,
     root ∈ dom index → size (names index) < depth →
     is_Some (dfs depth index root (DfsState ∅ ∅)) ∧
     ∃ g, build_dependency_graph depth root index = Ok g).
Proof.
  split; [|split; [|split]].
  - intros depth Hdepth.
    assert (dfs depth cyclic_index "A" (DfsState ∅ ∅)
            = Some (DfsState {[ "A" := {["B"]}; "B" := {["A"]} ]}
                      {[ "A"; "B" ]})) as Hrun.
    { apply (dfs_depth_mono cyclic_index 3 depth); [done|]. compute_done. }
    split; [done|]. unfold build_dependency_graph.
    rewrite decide_True by compute_done. by rewrite Hrun.
  - intros index depth pkg st Hin. rewrite dfs_unfold. by rewrite decide_True.
  - intros index depth pkg st st'. apply dfs_visited_mono.
  - intros index root depth Hroot Hdepth.
    split; [by apply dfs_returns_from_root|].
    by apply build_dependency_graph_total.
Qed.

Lemma build_cyclic_terminates_witness :
  (dfs 3 cyclic_index "A" (DfsState ∅ ∅)
     = Some (DfsState {[ "A" := {["B"]}; "B" := {["A"]} ]} {[ "A"; "B" ]})
   ∧ build_dependency_graph 3 "A" cyclic_index
       = Ok {[ "A" := {["B"]}; "B" := {["A"]} ]}) ∧
  dfs 1 cyclic_index "A" (DfsState {[ "A" := ∅ ]} {[ "A" ]})
    = Some (DfsState {[ "A" := ∅ ]} {[ "A" ]}) ∧
  ("A" ∈ visited (DfsState {[ "A" := {["B"]}; "B" := {["A"]} ]}
                            {[ "A"; "B" ]}) ∧
   visited (DfsState ∅ ∅)
     ⊆ visited (DfsState {[ "A" := {["B"]}; "B" := {["A"]} ]}
                         {[ "A"; "B" ]})) ∧
  (is_Some (dfs 3 cyclic_index "B" (DfsState ∅ ∅)) ∧
   ∃ g, build_dependency_graph 3 "B" cyclic_index = Ok g).
Proof.
  destruct build_cyclic_terminates
    as (Hdepth & Hrevisit & Hmono & Htotal).
  split; [apply (Hdepth 3); lia|]. split; [apply Hrevisit; compute_done|].
  split; [|apply Htotal; compute_done].
  apply (Hmono cyclic_index 3 "A" (DfsState ∅ ∅)
           (DfsState {[ "A" := {["B"]}; "B" := {["A"]} ]} {[ "A"; "B" ]})).
  compute_done.
Defined.

(** C4.  When the root is not a key of the index, [build(root, index)]
    raises the not-found exception and returns no graph, under every
    recursion limit; the test comes before any graph is constructed. *)
Theorem build_not_found (limit : nat) (root : string)
    (index : gmap string (list string)) :
  root ∉ dom index →
  build_dependency_graph limit root index
    = Raise (Exception ("Package " +:+ root +:+ " not found in repository."))
  ∧ ∀ g, build_dependency_graph limit root index ≠ Ok g.
Proof.
  intros Hroot. unfold build_dependency_graph.
  rewrite decide_False by done. split; [done|]. intros g Hg. discriminate Hg.
Qed.

Lemma build_not_found_witness :
  build_dependency_graph 1000 "unknown" {[ "A" := ["B"] ]}
    = Raise (Exception "Package unknown not found in repository.")
  ∧ ∀ g, build_dependency_graph 1000 "unknown" {[ "A" := ["B"] ]} ≠ Ok g.
Proof.
  apply (build_not_found 1000 "unknown" {[ "A" := ["B"] ]}).
  compute_done.
Defined.

(** * Properties of the string primitives *)

Section Strings.

Implicit Types (c sep : ascii) (s t : string).

Lemma append_nil_l s : "" +:+ s = s.
Proof. reflexivity. Qed.

Lemma append_cons c s t : String c s +:+ t = String c (s +:+ t).
Proof. reflexivity. Qed.

Lemma append_nil_r s : s +:+ "" = s.
Proof. induction s as [|c s IH]; [done|]. by rewrite append_cons, IH. Qed.

Lemma append_assoc s t u : (s +:+ t) +:+ u = s +:+ t +:+ u.
Proof.
  induction s as [|c s IH]; [done|]. by rewrite !append_cons, IH.
Qed.

Lemma split_nonempty sep s : Py.split sep s ≠ [].
Proof.
  destruct s as [|c s]; simpl; [done|].
  case_decide; [done|]. by destruct (Py.split sep s).
Qed.

Lemma split_head sep s : is_Some (Py.split sep s !! 0).
Proof.
  pose proof (split_nonempty sep s). destruct (Py.split sep s); [done|].
  by eexists.
Qed.

Lemma split_no_sep sep s : Py.contains sep s = false → Py.split sep s = [s].
Proof.
  induction s as [|c s IH]; simpl; [done|].
  case_decide; [done|]. intros Hs. by rewrite IH.
Qed.

(** Splitting distributes over a separator. *)
Lemma split_app_sep sep s t :
  Py.split sep (s +:+ String sep t) = Py.split sep s ++ Py.split sep t.
Proof.
  induction s as [|c s IH]; rewrite ?append_nil_l, ?append_cons; simpl.
  - by rewrite decide_True.
  - case_decide; [by rewrite IH|]. rewrite IH.
    pose proof (split_nonempty sep s). by destruct (Py.split sep s).
Qed.

Lemma contains_app sep s t :
  Py.contains sep (s +:+ t) = Py.contains sep s || Py.contains sep t.
Proof.
  induction s as [|c s IH]; rewrite ?append_nil_l, ?append_cons; simpl;
    [done|].
  by case_decide.
Qed.

(** [split] undoes [join] on lines that hold no separator. *)
Lemma split_join sep (l : list string) :
  l ≠ [] →
  Forall (λ s, Py.contains sep s = false) l →
  Py.split sep (Py.join (String sep "") l) = l.
Proof.
  intros Hne Hl. induction Hl as [|x l Hx Hl IH]; [done|].
  destruct l as [|y l]; [by apply split_no_sep|].
  change (Py.join (String sep "") (x :: y :: l))
    with (x +:+ String sep (Py.join (String sep "") (y :: l))).
  rewrite split_app_sep, IH by done. by rewrite split_no_sep.
Qed.

Lemma split1_contains sep s :
  Py.contains sep s = true → ∃ k v, Py.split1 sep s = [k; v].
Proof.
  induction s as [|c s IH]; simpl; [done|].
  case_decide; [by eauto|]. intros Hs.
  destruct (IH Hs) as (k & v & ->). by eauto.
Qed.

(** *** [strip] *)

Lemma rstrip_cons c s :
  Py.rstrip (String c s) =
    if decide (Py.rstrip s = "") then
      if Py.isspace c then "" else String c ""
    else String c (Py.rstrip s).
Proof. simpl. by destruct (Py.rstrip s). Qed.

Lemma rstrip_cons_nonspace c s :
  Py.isspace c = false → Py.rstrip (String c s) = String c (Py.rstrip s).
Proof.
  intros Hc. rewrite rstrip_cons, Hc. case_decide as Hs; [by rewrite Hs|done].
Qed.

(** A suffix that survives [rstrip] protects what precedes it. *)
Lemma rstrip_app s t :
  Py.rstrip t ≠ "" → Py.rstrip (s +:+ t) = s +:+ Py.rstrip t.
Proof.
  intros Ht. induction s as [|c s IH]; [done|].
  rewrite !append_cons, rstrip_cons, IH.
  rewrite decide_False; [done|]. by destruct s, (Py.rstrip t).
Qed.

Lemma strip_cons_space c s :
  Py.isspace c = true → Py.strip (String c s) = Py.strip s.
Proof.
  intros Hc. unfold Py.strip. rewrite rstrip_cons, Hc.
  case_decide as Hs; [by rewrite Hs|]. simpl. by rewrite Hc.
Qed.

Lemma strip_cons_nonspace c s :
  Py.isspace c = false →
  Py.strip (String c s) = String c (Py.rstrip s).
Proof.
  intros Hc. unfold Py.strip. rewrite rstrip_cons_nonspace by done.
  simpl. by rewrite Hc.
Qed.

End Strings.

(** * Properties of the parser *)

Section Names.

Implicit Types (c sep : ascii) (s t d : string).

Lemma all_chars_impl (P Q : ascii → bool) s :
  (∀ c, P c = true → Q c = true) →
  all_chars P s = true → all_chars Q s = true.
Proof.
  intros HPQ. induction s as [|c s IH]; simpl; [done|].
  intros [Hc Hs]%andb_true_iff. by rewrite (HPQ c Hc), IH.
Qed.

Lemma all_chars_no_sep sep s :
  all_chars (λ c, bool_decide (c ≠ sep)) s = true →
  Py.contains sep s = false.
Proof.
  induction s as [|c s IH]; simpl; [done|].
  intros [Hc%bool_decide_eq_true Hs]%andb_true_iff.
  rewrite decide_False by done. by apply IH.
Qed.

Lemma rstrip_nonspace_app s t :
  all_chars (λ c, negb (Py.isspace c)) s = true →
  Py.rstrip (s +:+ t) = s +:+ Py.rstrip t.
Proof.
  induction s as [|c s IH]; [done|]. intros Hs. simpl in Hs.
  apply andb_true_iff in Hs as [Hc%negb_true_iff Hs].
  by rewrite !append_cons, rstrip_cons_nonspace, IH.
Qed.

Lemma is_name_nonspace d :
  is_name d → all_chars (λ c, negb (Py.isspace c)) d = true.
Proof.
  intros [_ Hd]. eapply all_chars_impl; [|exact Hd].
  by intros c [? _]%andb_true_iff.
Qed.

Lemma is_name_no_comma d : is_name d → Py.contains "," d = false.
Proof.
  intros [_ Hd]. apply all_chars_no_sep.
  eapply all_chars_impl; [|exact Hd]. by intros c [_ ?]%andb_true_iff.
Qed.

Lemma is_name_no_space d : is_name d → Py.contains " " d = false.
Proof.
  intros Hd%is_name_nonspace. apply all_chars_no_sep.
  eapply all_chars_impl; [|exact Hd]. simpl.
  intros c Hc%negb_true_iff. apply bool_decide_eq_true. by intros ->.
Qed.

Lemma is_name_rstrip d : is_name d → Py.rstrip d = d.
Proof.
  intros Hd%is_name_nonspace.
  rewrite <-(append_nil_r d) at 1.
  by rewrite rstrip_nonspace_app, append_nil_r.
Qed.

(** A name followed by anything keeps the name when stripped. *)
Lemma is_name_strip_app d t :
  is_name d → Py.strip (d +:+ t) = d +:+ Py.rstrip t.
Proof.
  intros Hd. pose proof (is_name_nonspace d Hd) as Hns.
  destruct Hd as [Hne _]. destruct d as [|c d]; [done|].
  simpl in Hns. apply andb_true_iff in Hns as [Hc%negb_true_iff Hns].
  by rewrite !append_cons, strip_cons_nonspace, rstrip_nonspace_app.
Qed.

Lemma is_name_strip d : is_name d → Py.strip d = d.
Proof.
  intros Hd. rewrite <-(append_nil_r d) at 1.
  by rewrite is_name_strip_app, append_nil_r.
Qed.

(** The first token of a name followed by nothing or by a space. *)
Lemma first_token_name d t :
  is_name d →
  Py.split " " (d +:+ Py.rstrip (String " " t)) !! 0 = Some d.
Proof.
  intros Hd%is_name_no_space. rewrite rstrip_cons.
  case_decide; simpl.
  - by rewrite append_nil_r, split_no_sep.
  - by rewrite split_app_sep, split_no_sep.
Qed.

(** The dependency list of the value [d1 ann, d2]. *)
Lemma depends_list_two d1 ann d2 :
  is_name d1 → is_name d2 → Py.contains "," ann = false →
  Py.strip (d1 +:+ " " +:+ ann +:+ ", " +:+ d2)
    = d1 +:+ " " +:+ ann +:+ ", " +:+ d2 ∧
  depends_list (d1 +:+ " " +:+ ann +:+ ", " +:+ d2) = Ok [d1; d2].
Proof.
  intros Hd1 Hd2 Hann.
  assert (Py.rstrip d2 ≠ "") as Hr2.
  { rewrite is_name_rstrip by done. by destruct Hd2. }
  split.
  - rewrite is_name_strip_app by done. f_equal.
    rewrite <-!append_assoc. rewrite rstrip_app by done.
    by rewrite is_name_rstrip.
  - unfold depends_list. rewrite decide_False; last first.
    { destruct Hd1 as [Hne _]. by destruct d1. }
    change (d1 +:+ " " +:+ ann +:+ ", " +:+ d2)
      with (d1 +:+ " " +:+ ann +:+ String "," (String " " d2)).
    rewrite <-!append_assoc, split_app_sep.
    rewrite split_no_sep; last first.
    { rewrite !contains_app, Hann, is_name_no_comma by done. done. }
    rewrite (split_no_sep "," (String " " d2)); last first.
    { simpl. by rewrite is_name_no_comma. }
    simpl. rewrite append_assoc.
    rewrite is_name_strip_app by done.
    change (" " +:+ ann) with (String " " ann).
    rewrite first_token_name by done. simpl.
    rewrite strip_cons_space by done.
    rewrite is_name_strip by done.
    rewrite split_no_sep by (by apply is_name_no_space). done.
Qed.

End Names.

Section Parser.

Implicit Types (line : string) (lines : list string) (st : parser_state).
Implicit Types (info : gmap string (list string)) (cur : gmap string string).

(** *** No step of the parser raises *)

Lemma first_tokens_total (entries : list string) :
  ∃ l, first_tokens entries = Ok l.
Proof.
  induction entries as [|dep rest [l IH]]; simpl; [by eexists|].
  destruct (split_head " " (Py.strip dep)) as [name ->].
  rewrite IH. by eexists.
Qed.

Lemma depends_list_total (depends : string) :
  ∃ l, depends_list depends = Ok l.
Proof.
  unfold depends_list. case_decide; [by eexists|].
  apply first_tokens_total.
Qed.

Lemma commit_record_package info cur X :
  cur !! "Package" = Some X →
  ∃ l, depends_list (default "" (cur !! "Depends")) = Ok l ∧
       commit_record (ParserState info cur)
         = Ok (ParserState (<[X := l]> info) ∅).
Proof.
  intros HX. unfold commit_record. simpl.
  rewrite decide_True by (apply elem_of_dom; eauto). rewrite HX.
  destruct (depends_list_total (default "" (cur !! "Depends"))) as [l Hl].
  exists l. by rewrite Hl.
Qed.

Lemma commit_record_no_package info cur :
  cur !! "Package" = None →
  commit_record (ParserState info cur) = Ok (ParserState info ∅).
Proof.
  intros HX. unfold commit_record. simpl.
  by rewrite decide_False by (by apply not_elem_of_dom).
Qed.

Lemma commit_record_total st :
  ∃ info, commit_record st = Ok (ParserState info ∅).
Proof.
  destruct st as [info cur].
  destruct (cur !! "Package") as [X|] eqn:HX.
  - destruct (commit_record_package info cur X HX) as (l & _ & ->).
    by eexists.
  - rewrite commit_record_no_package by done. by eexists.
Qed.

Lemma record_field_spec line st :
  record_field line st
    = Ok (ParserState (packages_info st)
            (record_fields [line] (current_package st))).
Proof.
  unfold record_field, record_fields, field_of. simpl.
  destruct (Py.contains ":" line) eqn:Hc; [|by destruct st].
  destruct (split1_contains _ _ Hc) as (k & v & ->). done.
Qed.

Lemma parse_line_total line st : ∃ st', parse_line line st = Ok st'.
Proof.
  unfold parse_line. case_decide.
  - destruct (commit_record_total st) as [info ->]. by eexists.
  - rewrite record_field_spec. by eexists.
Qed.

Lemma parse_lines_total lines st : ∃ st', parse_lines lines st = Ok st'.
Proof.
  revert st. induction lines as [|line rest IH]; intros st; simpl;
    [by eexists|].
  destruct (parse_line_total line st) as [st1 ->]. apply IH.
Qed.

(** *** The loop, piece by piece *)

Lemma parse_lines_app l1 l2 st :
  parse_lines (l1 ++ l2) st = st' ← parse_lines l1 st; parse_lines l2 st'.
Proof.
  revert st. induction l1 as [|line l1 IH]; intros st; simpl; [done|].
  destruct (parse_line line st) as [st1|e]; simpl; [apply IH|done].
Qed.

(** The lines of a record only fill [current_package]. *)
Lemma parse_lines_record lines info cur :
  Forall (λ line, Py.strip line ≠ "") lines →
  parse_lines lines (ParserState info cur)
    = Ok (ParserState info (record_fields lines cur)).
Proof.
  intros Hl. revert cur.
  induction Hl as [|line rest Hline Hrest IH]; intros cur; simpl; [done|].
  unfold parse_line. rewrite decide_False by done.
  rewrite record_field_spec. simpl. apply IH.
Qed.

(** A record and the blank line after it. *)
Lemma parse_lines_commit lines blank info cur :
  Forall (λ line, Py.strip line ≠ "") lines →
  Py.strip blank = "" →
  parse_lines (lines ++ [blank]) (ParserState info cur)
    = commit_record (ParserState info (record_fields lines cur)).
Proof.
  intros Hl Hb. rewrite parse_lines_app, parse_lines_record by done.
  simpl. unfold parse_line. rewrite decide_True by done.
  by destruct (commit_record _).
Qed.

(** After a blank line no record is open. *)
Lemma parse_lines_blank_last lines blank st st' :
  Py.strip blank = "" →
  parse_lines (lines ++ [blank]) st = Ok st' →
  current_package st' = ∅.
Proof.
  intros Hb. rewrite parse_lines_app.
  destruct (parse_lines lines st) as [st1|e]; simpl; [|done].
  unfold parse_line. rewrite decide_True by done.
  destruct (commit_record_total st1) as [info ->]. simpl.
  by intros [= <-].
Qed.

(** *** The fields of a record *)

Lemma record_fields_lookup lines cur k v :
  (∀ l v', l ∈ lines → field_of l = Some (k, v') → v' = v) →
  (∃ l, l ∈ lines ∧ field_of l = Some (k, v)) ∨ cur !! k = Some v →
  record_fields lines cur !! k = Some v.
Proof.
  revert cur. induction lines as [|line rest IH]; intros cur Hall Hsome.
  - destruct Hsome as [(l & Hl & _)|Hcur]; [by apply elem_of_nil in Hl|done].
  - change (record_fields (line :: rest) cur)
      with (record_fields rest (record_fields [line] cur)).
    apply IH.
    { intros l v' Hl. apply Hall. by right. }
    destruct Hsome as [(l & [->|Hl]%elem_of_cons & Hf)|Hcur].
    + right. unfold record_fields. simpl. rewrite Hf.
      apply lookup_insert_eq.
    + left. by exists l.
    + right. unfold record_fields. simpl.
      destruct (field_of line) as [[k' v']|] eqn:Hf; [|done].
      destruct (decide (k' = k)) as [->|Hne].
      * rewrite (Hall line v') by (done || by left).
        apply lookup_insert_eq.
      * by rewrite lookup_insert_ne.
Qed.

Lemma record_fields_lookup_absent lines cur k :
  (∀ l, l ∈ lines → key_of l ≠ Some k) →
  record_fields lines cur !! k = cur !! k.
Proof.
  revert cur. induction lines as [|line rest IH]; intros cur Hall; [done|].
  change (record_fields (line :: rest) cur)
    with (record_fields rest (record_fields [line] cur)).
  rewrite IH by (intros l Hl; apply Hall; by right).
  unfold record_fields. simpl.
  pose proof (Hall line ltac:(by left)) as Hk. unfold key_of in Hk.
  destruct (field_of line) as [[k' v']|]; [|done].
  rewrite lookup_insert_ne; [done|]. intros ->. by apply Hk.
Qed.

Lemma unique_key_value lines k l v :
  unique_key k lines → l ∈ lines → field_of l = Some (k, v) →
  ∀ l' v', l' ∈ lines → field_of l' = Some (k, v') → v' = v.
Proof.
  intros Huniq Hl Hf l' v' Hl' Hf'.
  assert (l' = l) as ->; [|congruence].
  unfold unique_key in Huniq. rewrite Forall_forall in Huniq.
  specialize (Huniq l' Hl'). rewrite Forall_forall in Huniq.
  apply Huniq; try done; unfold key_of; by rewrite ?Hf, ?Hf'.
Qed.

Lemma field_of_Package v :
  field_of ("Package: " +:+ v) = Some ("Package", Py.strip v).
Proof.
  unfold field_of.
  change (Py.contains ":" ("Package: " +:+ v)) with true.
  change (Py.split1 ":" ("Package: " +:+ v)) with ["Package"; String " " v].
  cbv beta iota. rewrite (strip_cons_space " " v) by reflexivity.
  reflexivity.
Qed.

Lemma field_of_Depends v :
  field_of ("Depends: " +:+ v) = Some ("Depends", Py.strip v).
Proof.
  unfold field_of.
  change (Py.contains ":" ("Depends: " +:+ v)) with true.
  change (Py.split1 ":" ("Depends: " +:+ v)) with ["Depends"; String " " v].
  cbv beta iota. rewrite (strip_cons_space " " v) by reflexivity.
  reflexivity.
Qed.

Lemma field_of_Depends_bare v :
  field_of ("Depends:" +:+ v) = Some ("Depends", Py.strip v).
Proof.
  unfold field_of.
  change (Py.contains ":" ("Depends:" +:+ v)) with true.
  change (Py.split1 ":" ("Depends:" +:+ v)) with ["Depends"; v].
  reflexivity.
Qed.

(** The [Package] field of a committed record. *)
Lemma package_record_lookup X lines cur :
  package_record X lines →
  record_fields lines cur !! "Package" = Some X.
Proof.
  intros (_ & Huniq & Hin & HX).
  assert (field_of ("Package: " +:+ X) = Some ("Package", X)) as Hf.
  { by rewrite field_of_Package, HX. }
  apply record_fields_lookup; [|left; by exists ("Package: " +:+ X)].
  intros l v' Hl Hf'.
  exact (unique_key_value lines "Package" _ X Huniq Hin Hf l v' Hl Hf').
Qed.

Lemma Forall_record_line_nonblank lines :
  Forall record_line lines → Forall (λ line, Py.strip line ≠ "") lines.
Proof. intros H. eapply Forall_impl; [exact H|]. by intros l [? _]. Qed.

Lemma Forall_record_line_single lines :
  Forall record_line lines → Forall single_line lines.
Proof. intros H. eapply Forall_impl; [exact H|]. by intros l [_ ?]. Qed.

(** The text of some lines, read back as those lines. *)
Lemma split_join_lines lines :
  lines ≠ [] →
  Forall single_line lines →
  Py.split "010" (Py.join newline lines) = lines.
Proof. apply split_join. Qed.

(** The index is touched by blank lines only, and under the name of the
    open record. *)
Lemma parse_lines_keeps_entry X lines info cur st' :
  Forall (λ line, field_of line ≠ Some ("Package", X)) lines →
  cur !! "Package" ≠ Some X →
  parse_lines lines (ParserState info cur) = Ok st' →
  packages_info st' !! X = info !! X.
Proof.
  intros Hl. revert info cur.
  induction Hl as [|line rest Hline Hrest IH]; intros info cur Hcur; simpl.
  { by intros [= <-]. }
  unfold parse_line. case_decide as Hblank.
  - destruct (cur !! "Package") as [Y|] eqn:HY.
    + destruct (commit_record_package info cur Y HY) as (l & _ & ->). simpl.
      intros Hrun. apply IH in Hrun; [|by rewrite lookup_empty].
      rewrite Hrun. apply lookup_insert_ne. by intros ->.
    + rewrite commit_record_no_package by done. simpl.
      apply IH. by rewrite lookup_empty.
  - rewrite record_field_spec. simpl. apply IH.
    unfold record_fields. simpl.
    destruct (field_of line) as [[k v]|] eqn:Hf; [|done].
    destruct (decide (k = "Package")) as [->|Hne].
    + rewrite lookup_insert_eq. intros [= ->]. done.
    + by rewrite lookup_insert_ne.
Qed.

(** Lines that end at a record boundary are empty or end in a blank line. *)
Lemma ends_records_inv (lines : list string) :
  ends_records lines →
  lines = [] ∨ ∃ init blank, lines = init ++ [blank] ∧ Py.strip blank = "".
Proof.
  unfold ends_records.
  destruct lines as [|l lines _] using rev_ind; [by left|].
  rewrite last_snoc. simpl. right. by exists lines, l.
Qed.

(** A record alone in a text, with the blank line that ends it. *)
Lemma parse_single_record lines blank X :
  package_record X lines → blank_line blank →
  ∃ l, depends_list (default "" (record_fields lines ∅ !! "Depends")) = Ok l ∧
       parse_packages_data (Py.join newline (lines ++ [blank]))
         = Ok {[ X := l ]}.
Proof.
  intros Hrec [Hblank Hsingle]. pose proof Hrec as (Hlines & _).
  destruct (commit_record_package ∅ (record_fields lines ∅) X) as (l & Hl & Hc).
  { by apply package_record_lookup. }
  exists l. split; [done|]. unfold parse_packages_data.
  rewrite split_join_lines; first last.
  { apply Forall_app. split; [by apply Forall_record_line_single|].
    by apply Forall_singleton. }
  { by destruct lines. }
  rewrite parse_lines_commit, Hc
    by (done || by apply Forall_record_line_nonblank).
  simpl. by rewrite insert_empty.
Qed.

End Parser.

(** ** The claims about the parser *)

(** C5.  A well-formed record with the fields [Package: P] and
    [Depends: d1 ann, d2], where [ann] is a version constraint such as
    [(>=1)], followed by a blank line, yields the entry [P -> [d1, d2]]:
    each comma-separated entry is cut at its first space, and the order of
    declaration is kept.  The record may hold other fields, in any
    order. *)
Theorem parse_record_with_depends (lines : list string)
    (P d1 ann d2 blank : string) :
  package_record P lines →
  unique_key "Depends" lines →
  ("Depends: " +:+ d1 +:+ " " +:+ ann +:+ ", " +:+ d2) ∈ lines →
  is_name d1 → is_name d2 → Py.contains "," ann = false →
  blank_line blank →
  parse_packages_data (Py.join newline (lines ++ [blank]))
    = Ok {[ P := [d1; d2] ]}.
Proof.
  intros Hrec Huniq Hin Hd1 Hd2 Hann Hblank.
  destruct (parse_single_record lines blank P Hrec Hblank) as (l & Hl & ->).
  destruct (depends_list_two d1 ann d2 Hd1 Hd2 Hann) as [Hstrip Hlist].
  assert (record_fields lines ∅ !! "Depends"
          = Some (d1 +:+ " " +:+ ann +:+ ", " +:+ d2)) as Hdep.
  { assert (field_of ("Depends: " +:+ d1 +:+ " " +:+ ann +:+ ", " +:+ d2)
            = Some ("Depends", d1 +:+ " " +:+ ann +:+ ", " +:+ d2)) as Hf.
    { by rewrite field_of_Depends, Hstrip. }
    apply record_fields_lookup; [|left; eauto].
    intros l' v' Hl' Hf'.
    exact (unique_key_value lines "Depends" _ _ Huniq Hin Hf l' v' Hl' Hf'). }
  rewrite Hdep in Hl. simpl in Hl. congruence.
Qed.

Lemma parse_record_with_depends_witness :
  parse_packages_data
    (Py.join newline (["Package: P"; "Depends: d1 (>=1), d2"] ++ [""]))
    = Ok {[ "P" := ["d1"; "d2"] ]}.
Proof.
  apply (parse_record_with_depends
           ["Package: P"; "Depends: d1 (>=1), d2"] "P" "d1" "(>=1)" "d2" "");
    compute_done.
Defined.

(** C6.  A record with the field [Package: X] and either no [Depends]
    field at all, or a [Depends] field whose value is empty, followed by a
    blank line, yields the entry [X -> []]. *)
Theorem parse_record_without_depends (lines : list string)
    (X blank : string) :
  package_record X lines →
  Forall (λ line, key_of line ≠ Some "Depends") lines ∨
  (unique_key "Depends" lines ∧
   ∃ ws, ("Depends:" +:+ ws) ∈ lines ∧ Py.strip ws = "") →
  blank_line blank →
  parse_packages_data (Py.join newline (lines ++ [blank]))
    = Ok {[ X := [] ]}.
Proof.
  intros Hrec Hdep Hblank.
  destruct (parse_single_record lines blank X Hrec Hblank) as (l & Hl & ->).
  assert (default "" (record_fields lines ∅ !! "Depends") = "") as Hempty.
  { destruct Hdep as [Hnone|(Huniq & ws & Hin & Hws)].
    - rewrite record_fields_lookup_absent, lookup_empty; [done|].
      by apply Forall_forall.
    - assert (field_of ("Depends:" +:+ ws) = Some ("Depends", "")) as Hf.
      { by rewrite field_of_Depends_bare, Hws. }
      rewrite (record_fields_lookup lines ∅ "Depends" ""); [done| |left; eauto].
      intros l' v' Hl' Hf'.
      exact (unique_key_value lines "Depends" _ _ Huniq Hin Hf l' v' Hl' Hf'). }
  rewrite Hempty in Hl. unfold depends_list in Hl.
  rewrite decide_True in Hl by done. congruence.
Qed.

Lemma parse_record_without_depends_witness :
  parse_packages_data (Py.join newline (["Package: X"; "Depends:"] ++ [""]))
    = Ok {[ "X" := [] ]} ∧
  parse_packages_data (Py.join newline (["Package: X"] ++ [""]))
    = Ok {[ "X" := [] ]}.
Proof.
  split.
  - apply (parse_record_without_depends ["Package: X"; "Depends:"] "X" "");
      try (compute_done).
    right. split; [compute_done|].
    exists "". split; [|reflexivity].
    compute_done.
  - apply (parse_record_without_depends ["Package: X"] "X" "");
      try (compute_done).
    left. compute_done.
Defined.

(** C8.  The parser is total and lenient.  It returns an index for every
    input text and raises nothing.  A line of a record that contains no
    colon leaves the loop state as it was.  A record that lacks a
    [Package] field, once ended by its blank line, leaves the index as it
    was and is forgotten. *)
Theorem parse_total_and_lenient :
  (∀ data, ∃ index, parse_packages_data data = Ok index) ∧
  (∀ line st,
     Py.strip line ≠ "" → Py.contains ":" line = false →
     parse_line line st = Ok st) ∧
  (∀ lines blank info,
     Forall (λ line, Py.strip line ≠ "") lines →
     Forall (λ line, key_of line ≠ Some "Package") lines →
     Py.strip blank = "" →
     parse_lines (lines ++ [blank]) (ParserState info ∅)
       = Ok (ParserState info ∅)).
Proof.
  split; [|split].
  - intros data. unfold parse_packages_data.
    destruct (parse_lines_total (Py.split "010" data) (ParserState ∅ ∅))
      as [st' ->].
    by eexists.
  - intros line st Hline Hcolon. unfold parse_line, record_field.
    by rewrite decide_False, Hcolon.
  - intros lines blank info Hlines Hkeys Hblank.
    rewrite parse_lines_commit by done.
    apply commit_record_no_package.
    rewrite record_fields_lookup_absent; [done|]. by apply Forall_forall.
Qed.

Lemma parse_total_and_lenient_witness :
  (∃ index, parse_packages_data "no colon here" = Ok index) ∧
  parse_line "no colon here" (ParserState ∅ {[ "Package" := "X" ]})
    = Ok (ParserState ∅ {[ "Package" := "X" ]}) ∧
  parse_lines (["Depends: a, b"; "Version: 1"] ++ [""])
    (ParserState {[ "X" := [] ]} ∅)
    = Ok (ParserState {[ "X" := [] ]} ∅).
Proof.
  destruct parse_total_and_lenient as (Htotal & Hline & Hrecord).
  split; [apply Htotal|]. split.
  - apply Hline; compute_done.
  - apply Hrecord; compute_done.
Defined.

(** C9.  A record is committed only by a blank line, or by the empty last
    element a final line break produces.  A record whose lines end the
    text without one adds nothing: alone it gives the empty index, and
    after any text [head] it gives the index of [head], whether or not it
    has a [Package] field. *)
Theorem parse_unterminated_record_dropped (head record : string) :
  Forall (λ line, Py.strip line ≠ "") (Py.split "010" record) →
  parse_packages_data record = Ok ∅ ∧
  parse_packages_data (head +:+ newline +:+ record)
    = parse_packages_data head.
Proof.
  intros Hrec. unfold parse_packages_data. split.
  - by rewrite parse_lines_record.
  - change (head +:+ newline +:+ record)
      with (head +:+ String "010" record).
    rewrite split_app_sep, parse_lines_app.
    destruct (parse_lines_total (Py.split "010" head) (ParserState ∅ ∅))
      as [[info cur] ->].
    simpl. by rewrite parse_lines_record.
Qed.

Lemma parse_unterminated_record_dropped_witness :
  parse_packages_data ("Package: B" +:+ newline +:+ "Depends: c") = Ok ∅ ∧
  parse_packages_data
    (("Package: A" +:+ newline) +:+ newline
       +:+ ("Package: B" +:+ newline +:+ "Depends: c"))
    = parse_packages_data ("Package: A" +:+ newline).
Proof.
  apply (parse_unterminated_record_dropped
           ("Package: A" +:+ newline)
           ("Package: B" +:+ newline +:+ "Depends: c")).
  compute_done.
Defined.

(** C10.  When two committed records carry the same [Package] name [X],
    the entry of [X] is the dependency list of the later one, the list
    that record gives when parsed alone: the earlier record is
    overwritten, nothing is merged and nothing is rejected.  Here [R1] and
    [R2] are the two records, each ended by a blank line; [pre], [mid] and
    [post] are the lines around them, [mid] ending at a record boundary
    and [post] holding no further record named [X]. *)
Theorem parse_duplicate_package_last_wins
    (pre R1 mid R2 post : list string) (X b1 b2 : string) :
  package_record X R1 → blank_line b1 →
  package_record X R2 → blank_line b2 →
  ends_records mid →
  Forall single_line (pre ++ mid ++ post) →
  Forall (λ line, field_of line ≠ Some ("Package", X)) post →
  ∃ deps index,
    parse_packages_data (Py.join newline (R2 ++ [b2])) = Ok {[ X := deps ]} ∧
    parse_packages_data
      (Py.join newline (pre ++ R1 ++ [b1] ++ mid ++ R2 ++ [b2] ++ post))
      = Ok index ∧
    index !! X = Some deps.
Proof.
  intros HR1 [Hb1 Hs1] HR2 [Hb2 Hs2] Hmid Hsingle Hpost.
  destruct (parse_single_record R2 b2 X HR2) as (deps & Hdeps & Halone);
    [done|].
  exists deps.
  apply Forall_app in Hsingle as [Hpre [Hsmid Hspost]%Forall_app].
  pose proof HR1 as (HR1l & _). pose proof HR2 as (HR2l & _).
  unfold parse_packages_data at 2.
  rewrite split_join_lines; first last.
  { repeat (apply Forall_app; split); try done;
      try by apply Forall_record_line_single.
    - by apply Forall_singleton.
    - by apply Forall_singleton. }
  { intros Hnil. apply app_eq_nil in Hnil as [_ Hnil].
    apply app_eq_nil in Hnil as [_ Hnil]. done. }
  (* the lines before the later record end at a record boundary *)
  assert (∃ init blank, pre ++ R1 ++ [b1] ++ mid = init ++ [blank]
                        ∧ Py.strip blank = "") as (init & blank & Hinit & Hblank).
  { destruct (ends_records_inv mid Hmid) as [->|(init & blank & -> & Hblank)].
    - exists (pre ++ R1), b1. by rewrite app_nil_r, app_assoc.
    - exists (pre ++ R1 ++ [b1] ++ init), blank.
      by rewrite <-!app_assoc. }
  replace (pre ++ R1 ++ [b1] ++ mid ++ R2 ++ [b2] ++ post)
    with ((init ++ [blank]) ++ (R2 ++ [b2]) ++ post)
    by (rewrite <-Hinit, <-!app_assoc; done).
  rewrite (parse_lines_app (init ++ [blank])).
  destruct (parse_lines_total (init ++ [blank]) (ParserState ∅ ∅))
    as [[info0 cur0] Hst0].
  pose proof (parse_lines_blank_last _ _ _ _ Hblank Hst0) as Hcur0.
  simpl in Hcur0. subst cur0. rewrite Hst0. simpl.
  rewrite (parse_lines_app (R2 ++ [b2])).
  rewrite parse_lines_commit by (done || by apply Forall_record_line_nonblank).
  destruct (commit_record_package info0 (record_fields R2 ∅) X)
    as (deps' & Hdeps' & ->); [by apply package_record_lookup|].
  assert (deps' = deps) as -> by congruence. simpl.
  destruct (parse_lines_total post (ParserState (<[X:=deps]> info0) ∅))
    as [st' Hst'].
  rewrite Hst'. simpl.
  exists (packages_info st'). split; [done|]. split; [done|].
  apply parse_lines_keeps_entry with (X := X) in Hst'; try done.
  by rewrite Hst', lookup_insert_eq.
Qed.

Lemma parse_duplicate_package_last_wins_witness :
  ∃ deps index,
    parse_packages_data
      (Py.join newline (["Package: X"; "Depends: c"] ++ [""]))
      = Ok {[ "X" := deps ]} ∧
    parse_packages_data
      (Py.join newline
         ([] ++ ["Package: X"; "Depends: a, b"] ++ [""] ++ []
            ++ ["Package: X"; "Depends: c"] ++ [""] ++ []))
      = Ok index ∧
    index !! "X" = Some deps.
Proof.
  apply (parse_duplicate_package_last_wins
           [] ["Package: X"; "Depends: a, b"] []
           ["Package: X"; "Depends: c"] [] "X" "" ""); compute_done.
Defined.

(** * Properties of the serializer *)

Section Serializer.

Implicit Types (items : list (string * list string)) (l : list string).

(** The edge statements of one package, in the order of its set. *)
Lemma edge_loop (lines : list string) (pkg : string) l :
  foldl (λ lines dep, lines ++ [edge_line pkg dep]) lines l
    = lines ++ (edge_line pkg <$> l).
Proof.
  revert lines. induction l as [|dep l IH]; intros lines; simpl.
  - by rewrite app_nil_r.
  - by rewrite IH, <-app_assoc.
Qed.

(** The output, line by line. *)
Lemma generate_graphviz_code_lines items :
  generate_graphviz_code items
    = Py.join newline
        (["digraph G {"]
           ++ (items ≫= λ '(pkg, deps), edge_line pkg <$> deps)
           ++ ["}"]).
Proof.
  unfold generate_graphviz_code. f_equal. rewrite app_assoc. f_equal.
  generalize ["digraph G {"].
  induction items as [|[pkg deps] items IH]; intros lines; simpl.
  - by rewrite app_nil_r.
  - by rewrite edge_loop, IH, <-app_assoc.
Qed.

(** An iteration order of a set is a permutation of any other. *)
Lemma iterates_Permutation (s : gset string) l l0 :
  iterates s l0 → iterates s l → l ≡ₚ l0.
Proof.
  intros [Hnd0 Hs0] [Hnd Hs]. apply NoDup_Permutation; [done..|].
  intros x. by rewrite <-(elem_of_list_to_set (C := gset string) x l), Hs,
    <-Hs0, elem_of_list_to_set.
Qed.

End Serializer.

(** C7.  For the graph [{bash: {libc6, libtinfo6}, libc6: {libgcc1},
    libtinfo6: {}}], whatever the iteration order of its sets, the output
    is the text below, character for character ([q] is the double quote
    and [nl] the line break): the line [digraph G {], the two indented
    edge statements of [bash] in one of the two orders, the edge statement
    of [libc6], and the line [}]; these three edge statements and no
    other.  In general a package whose dependency set is empty adds no
    line to the output. *)
Theorem serialize_literal_scenario :
  (∀ bash_deps libc6_deps libtinfo6_deps,
     iterates {[ "libc6"; "libtinfo6" ]} bash_deps →
     iterates {[ "libgcc1" ]} libc6_deps →
     iterates ∅ libtinfo6_deps →
     let q := String "034" EmptyString in
     let nl := String "010" EmptyString in
     let output :=
       generate_graphviz_code
         [("bash", bash_deps); ("libc6", libc6_deps);
          ("libtinfo6", libtinfo6_deps)] in
     output
       = "digraph G {" +:+ nl
         +:+ "    " +:+ q +:+ "bash" +:+ q +:+ " -> "
         +:+ q +:+ "libc6" +:+ q +:+ ";" +:+ nl
         +:+ "    " +:+ q +:+ "bash" +:+ q +:+ " -> "
         +:+ q +:+ "libtinfo6" +:+ q +:+ ";" +:+ nl
         +:+ "    " +:+ q +:+ "libc6" +:+ q +:+ " -> "
         +:+ q +:+ "libgcc1" +:+ q +:+ ";" +:+ nl
         +:+ "}"
     ∨
     output
       = "digraph G {" +:+ nl
         +:+ "    " +:+ q +:+ "bash" +:+ q +:+ " -> "
         +:+ q +:+ "libtinfo6" +:+ q +:+ ";" +:+ nl
         +:+ "    " +:+ q +:+ "bash" +:+ q +:+ " -> "
         +:+ q +:+ "libc6" +:+ q +:+ ";" +:+ nl
         +:+ "    " +:+ q +:+ "libc6" +:+ q +:+ " -> "
         +:+ q +:+ "libgcc1" +:+ q +:+ ";" +:+ nl
         +:+ "}")
  ∧
  (∀ before pkg after,
     generate_graphviz_code (before ++ (pkg, []) :: after)
       = generate_graphviz_code (before ++ after)).
Proof.
  split.
  - intros l1 l2 l3 H1 H2 H3.
    apply (iterates_Permutation _ _ ["libc6"; "libtinfo6"]) in H1;
      [|split; [compute_done|compute_done]].
    apply (iterates_Permutation _ _ ["libgcc1"]) in H2;
      [|split; [compute_done|compute_done]].
    apply (iterates_Permutation _ _ []) in H3;
      [|split; [compute_done|compute_done]].
    symmetry in H1, H2, H3.
    apply Permutation_length_1_inv in H2 as ->.
    apply Permutation_nil in H3 as ->.
    apply Permutation_length_2_inv in H1 as [-> | ->];
      [left|right]; reflexivity.
  - intros before pkg after. rewrite !generate_graphviz_code_lines.
    by rewrite !bind_app.
Qed.

Lemma serialize_literal_scenario_witness :
  let q := String "034" EmptyString in
  let nl := String "010" EmptyString in
  let output :=
    generate_graphviz_code
      [("bash", ["libtinfo6"; "libc6"]); ("libc6", ["libgcc1"]);
       ("libtinfo6", [])] in
  output
    = "digraph G {" +:+ nl
      +:+ "    " +:+ q +:+ "bash" +:+ q +:+ " -> "
      +:+ q +:+ "libc6" +:+ q +:+ ";" +:+ nl
      +:+ "    " +:+ q +:+ "bash" +:+ q +:+ " -> "
      +:+ q +:+ "libtinfo6" +:+ q +:+ ";" +:+ nl
      +:+ "    " +:+ q +:+ "libc6" +:+ q +:+ " -> "
      +:+ q +:+ "libgcc1" +:+ q +:+ ";" +:+ nl
      +:+ "}"
  ∨
  output
    = "digraph G {" +:+ nl
      +:+ "    " +:+ q +:+ "bash" +:+ q +:+ " -> "
      +:+ q +:+ "libtinfo6" +:+ q +:+ ";" +:+ nl
      +:+ "    " +:+ q +:+ "bash" +:+ q +:+ " -> "
      +:+ q +:+ "libc6" +:+ q +:+ ";" +:+ nl
      +:+ "    " +:+ q +:+ "libc6" +:+ q +:+ " -> "
      +:+ q +:+ "libgcc1" +:+ q +:+ ";" +:+ nl
      +:+ "}".
Proof.
  destruct serialize_literal_scenario as [Hscenario _].
  apply Hscenario; (split; [compute_done|compute_done]).
Defined.

(** * Further properties of the parser *)

Section Whitespace.

Implicit Types (c sep : ascii) (s t ws line : string).

Lemma all_space_nil : all_space "".
Proof. reflexivity. Qed.

Lemma all_space_cons c ws :
  all_space (String c ws) ↔ Py.isspace c = true ∧ all_space ws.
Proof. unfold all_space. simpl. apply andb_true_iff. Qed.

Lemma all_space_no_char c ws :
  Py.isspace c = false → all_space ws → Py.contains c ws = false.
Proof.
  intros Hc. induction ws as [|c' ws IH]; [done|].
  intros [Hc' Hws]%all_space_cons. simpl.
  rewrite decide_False by congruence. by apply IH.
Qed.

Lemma lstrip_space_app ws s :
  all_space ws → Py.lstrip (ws +:+ s) = Py.lstrip s.
Proof.
  induction ws as [|c ws IH]; [done|].
  intros [Hc Hws]%all_space_cons. rewrite append_cons. simpl.
  rewrite Hc. by apply IH.
Qed.

Lemma rstrip_app_space s ws :
  all_space ws → Py.rstrip (s +:+ ws) = Py.rstrip s.
Proof.
  intros Hws. induction s as [|c s IH].
  - rewrite append_nil_l. induction ws as [|c ws IH]; [done|].
    apply all_space_cons in Hws as [Hc Hws].
    by rewrite rstrip_cons, IH, decide_True, Hc.
  - by rewrite append_cons, !rstrip_cons, IH.
Qed.

Lemma rstrip_space_app_empty ws s :
  all_space ws → Py.rstrip s = "" → Py.rstrip (ws +:+ s) = "".
Proof.
  intros Hws Hs. induction ws as [|c ws IH]; [done|].
  apply all_space_cons in Hws as [Hc Hws].
  by rewrite append_cons, rstrip_cons, IH, decide_True, Hc.
Qed.

Lemma strip_space_app_l ws s :
  all_space ws → Py.strip (ws +:+ s) = Py.strip s.
Proof.
  intros Hws. unfold Py.strip.
  destruct (decide (Py.rstrip s = "")) as [Hs|Hs].
  - by rewrite rstrip_space_app_empty, Hs.
  - by rewrite rstrip_app, lstrip_space_app.
Qed.

Lemma strip_space_app_r s ws :
  all_space ws → Py.strip (s +:+ ws) = Py.strip s.
Proof. intros Hws. unfold Py.strip. by rewrite rstrip_app_space. Qed.

Lemma split1_app_l sep a s h (rest : list string) :
  Py.contains sep a = false →
  Py.split1 sep s = h :: rest →
  Py.split1 sep (a +:+ s) = (a +:+ h) :: rest.
Proof.
  intros Ha Hs. induction a as [|c a IH]; [done|].
  simpl in Ha. case_decide; [done|].
  rewrite append_cons. simpl. rewrite decide_False by done.
  by rewrite IH.
Qed.

Lemma split1_app_r sep s x k v :
  Py.split1 sep s = [k; v] →
  Py.split1 sep (s +:+ x) = [k; v +:+ x].
Proof.
  revert k. induction s as [|c s IH]; intros k; [done|].
  rewrite append_cons. simpl. case_decide.
  - by intros [= <- <-].
  - destruct (Py.split1 sep s) as [|h [|v' [|? ?]]] eqn:Hs; try done.
    intros [= <- <-]. by rewrite (IH h).
Qed.

(** Whitespace around a line changes nothing of what the loop does with
    it. *)
Lemma parse_line_padded line line' st :
  padded line line' → parse_line line' st = parse_line line st.
Proof.
  intros (ws1 & ws2 & Hws1 & Hws2 & ->). unfold parse_line.
  rewrite strip_space_app_l, strip_space_app_r by done.
  case_decide; [done|]. unfold record_field.
  rewrite !contains_app.
  rewrite (all_space_no_char ":" ws1), (all_space_no_char ":" ws2) by done.
  rewrite orb_false_r. simpl.
  destruct (Py.contains ":" line) eqn:Hc; [|done].
  destruct (split1_contains _ _ Hc) as (k & v & Hkv).
  rewrite (split1_app_l ":" ws1 (line +:+ ws2) k [v +:+ ws2]).
  - by rewrite Hkv, strip_space_app_l, strip_space_app_r.
  - by apply all_space_no_char.
  - by apply split1_app_r.
Qed.

Lemma parse_lines_padded (lines lines' : list string) st :
  Forall2 padded lines lines' →
  parse_lines lines' st = parse_lines lines st.
Proof.
  intros Hl. revert st.
  induction Hl as [|line line' lines lines' Hline Hlines IH]; intros st;
    simpl; [done|].
  rewrite (parse_line_padded line line') by done.
  destruct (parse_line line st); simpl; [apply IH|done].
Qed.

End Whitespace.

(** X1.  Whitespace around the lines of a text does not matter: a text
    whose lines are indented, or end in blanks or in a carriage return,
    parses to the same result as the text of the bare lines. *)
Theorem parse_ignores_line_padding (lines lines' : list string) :
  Forall single_line lines → Forall single_line lines' →
  Forall2 padded lines lines' →
  parse_packages_data (Py.join newline lines')
    = parse_packages_data (Py.join newline lines).
Proof.
  intros Hs Hs' Hpad. unfold parse_packages_data.
  destruct lines as [|l lines].
  { by apply Forall2_nil_inv_l in Hpad as ->. }
  destruct lines' as [|l' lines']; [by apply Forall2_nil_inv_r in Hpad|].
  rewrite !split_join_lines by done.
  by rewrite (parse_lines_padded (l :: lines) (l' :: lines')).
Qed.

Lemma parse_ignores_line_padding_witness :
  parse_packages_data
    (Py.join newline
       ["  Package: X" +:+ cr; "  Depends: a (>= 1), b" +:+ cr; cr])
  = parse_packages_data
      (Py.join newline ["Package: X"; "Depends: a (>= 1), b"; ""]).
Proof.
  apply (parse_ignores_line_padding
           ["Package: X"; "Depends: a (>= 1), b"; ""]
           ["  Package: X" +:+ cr; "  Depends: a (>= 1), b" +:+ cr; cr]);
    [compute_done|compute_done|].
  constructor; [|constructor; [|constructor; [|constructor]]].
  - exists "  ", cr. split; [compute_done|]. split; [compute_done|done].
  - exists "  ", cr. split; [compute_done|]. split; [compute_done|done].
  - exists "", cr. split; [compute_done|]. split; [compute_done|done].
Defined.

Section Depends.

Implicit Types (c sep : ascii) (s d : string) (entries : list string).

Lemma first_tokens_length entries (l : list string) :
  first_tokens entries = Ok l → length l = length entries.
Proof.
  revert l. induction entries as [|dep rest IH]; intros l; simpl.
  - by intros [= <-].
  - destruct (Py.split " " (Py.strip dep) !! 0) as [name|]; [|done].
    destruct (first_tokens rest) as [l'|e]; simpl; [|done].
    intros [= <-]. simpl. by rewrite (IH l').
Qed.

Lemma first_tokens_cons dep entries name (l : list string) :
  Py.split " " (Py.strip dep) !! 0 = Some name →
  first_tokens entries = Ok l →
  first_tokens (dep :: entries) = Ok (name :: l).
Proof. intros Hname Hl. simpl. by rewrite Hname, Hl. Qed.

Lemma split_length sep s :
  length (Py.split sep s) = S (count_char sep s).
Proof.
  induction s as [|c s IH]; simpl; [done|].
  case_decide; simpl; [by rewrite IH|].
  pose proof (split_nonempty sep s).
  destruct (Py.split sep s); [done|]. simpl in *. lia.
Qed.

Lemma entry_no_comma (e : string * string) :
  depends_entry e → Py.contains "," (e.1 +:+ e.2) = false.
Proof.
  intros (Hname & _ & Hsuf).
  by rewrite contains_app, is_name_no_comma, Hsuf.
Qed.

Lemma entry_first_token (e : string * string) (lead : string) :
  depends_entry e → all_space lead →
  Py.split " " (Py.strip (lead +:+ e.1 +:+ e.2)) !! 0 = Some e.1.
Proof.
  intros (Hname & Hsuf & _) Hlead.
  rewrite strip_space_app_l, is_name_strip_app by done.
  destruct Hsuf as [->|[junk ->]].
  - simpl. rewrite append_nil_r, split_no_sep; [done|].
    by apply is_name_no_space.
  - by apply first_token_name.
Qed.

Lemma first_tokens_entries (es : list (string * string)) (lead : string) :
  es ≠ [] → Forall depends_entry es →
  all_space lead → Py.contains "," lead = false →
  first_tokens (Py.split "," (lead +:+ Py.join ", " (entries_text es)))
    = Ok es.*1.
Proof.
  intros Hne Hes. revert lead.
  induction Hes as [|e es He Hes IH]; intros lead Hlead Hcomma; [done|].
  destruct es as [|e' es].
  - simpl. rewrite split_no_sep; last first.
    { by rewrite contains_app, Hcomma, entry_no_comma. }
    simpl. by rewrite entry_first_token.
  - change (Py.join ", " (entries_text (e :: e' :: es)))
      with ((e.1 +:+ e.2)
              +:+ String "," (" " +:+ Py.join ", " (entries_text (e' :: es)))).
    rewrite <-append_assoc, split_app_sep.
    rewrite split_no_sep; last first.
    { by rewrite contains_app, Hcomma, entry_no_comma. }
    apply first_tokens_cons; [by apply entry_first_token|].
    by apply (IH ltac:(done) " ").
Qed.

End Depends.

(** The names of a [Depends] value made of well-formed entries. *)
Lemma depends_list_names (es : list (string * string)) :
  es ≠ [] → Forall depends_entry es →
  depends_list (Py.join ", " (entries_text es)) = Ok es.*1.
Proof.
  intros Hne Hes. unfold depends_list.
  rewrite decide_False; last first.
  { destruct es as [|e es]; [done|].
    apply Forall_cons in Hes as [((Hname & _) & _) _].
    destruct e as [[|c n] suf]; [done|]. by destruct es. }
  by apply (first_tokens_entries es "").
Qed.

(** X3.  A non-empty [Depends] value yields exactly one name for each of
    its comma-separated entries, one more than it has commas: an entry is
    never dropped, not even an empty one.  The empty value yields no
    name. *)
Theorem depends_list_length (depends : string) (l : list string) :
  depends_list depends = Ok l →
  length l = if decide (depends = "") then 0
             else S (count_char "," depends).
Proof.
  unfold depends_list. case_decide; [by intros [= <-]|].
  intros Hl%first_tokens_length. by rewrite Hl, split_length.
Qed.

Section Characters.

Implicit Types (c sep : ascii) (s t : string).

Lemma lstrip_no_char c s :
  Py.contains c s = false → Py.contains c (Py.lstrip s) = false.
Proof.
  induction s as [|c' s IH]; [done|]. simpl.
  case_decide; [done|]. intros Hs.
  destruct (Py.isspace c'); [by apply IH|]. simpl.
  by rewrite decide_False.
Qed.

Lemma rstrip_no_char c s :
  Py.contains c s = false → Py.contains c (Py.rstrip s) = false.
Proof.
  induction s as [|c' s IH]; [done|]. rewrite rstrip_cons. simpl.
  case_decide; [done|]. intros Hs.
  case_decide.
  - destruct (Py.isspace c'); [done|]. simpl. by rewrite decide_False.
  - simpl. rewrite decide_False by done. by apply IH.
Qed.

Lemma strip_no_char c s :
  Py.contains c s = false → Py.contains c (Py.strip s) = false.
Proof. intros Hs. by apply lstrip_no_char, rstrip_no_char. Qed.

Lemma split_pieces_no_sep sep s :
  Forall (λ t, Py.contains sep t = false) (Py.split sep s).
Proof.
  induction s as [|c s IH]; simpl; [by repeat constructor|].
  case_decide; [by constructor|].
  destruct (Py.split sep s) as [|h rest].
  { repeat constructor. simpl. by rewrite decide_False. }
  apply Forall_cons in IH as [Hh Hrest].
  constructor; [|done]. simpl. by rewrite decide_False.
Qed.

Lemma split_pieces_no_char c sep s :
  Py.contains c s = false →
  Forall (λ t, Py.contains c t = false) (Py.split sep s).
Proof.
  induction s as [|c' s IH]; simpl; [by repeat constructor|].
  case_decide; [done|]. intros Hs. specialize (IH Hs).
  case_decide; [by constructor|].
  destruct (Py.split sep s) as [|h rest].
  { repeat constructor. simpl. by rewrite decide_False. }
  apply Forall_cons in IH as [Hh Hrest].
  constructor; [|done]. simpl. by rewrite decide_False.
Qed.

Lemma split1_pieces_no_char c sep s :
  Py.contains c s = false →
  Forall (λ t, Py.contains c t = false) (Py.split1 sep s).
Proof.
  induction s as [|c' s IH]; simpl; [by repeat constructor|].
  case_decide; [done|]. intros Hs. specialize (IH Hs).
  case_decide; [by repeat constructor|].
  destruct (Py.split1 sep s) as [|h rest].
  { repeat constructor. simpl. by rewrite decide_False. }
  apply Forall_cons in IH as [Hh Hrest].
  constructor; [|done]. simpl. by rewrite decide_False.
Qed.

(** *** [strip] is idempotent *)

Lemma rstrip_idem s : Py.rstrip (Py.rstrip s) = Py.rstrip s.
Proof.
  induction s as [|c s IH]; [done|]. rewrite rstrip_cons.
  case_decide as Hs.
  - destruct (Py.isspace c) eqn:Hc; [done|].
    by rewrite rstrip_cons_nonspace.
  - by rewrite rstrip_cons, IH, decide_False.
Qed.

Lemma rstrip_lstrip s :
  Py.rstrip s = s → Py.rstrip (Py.lstrip s) = Py.lstrip s.
Proof.
  induction s as [|c s IH]; [done|]. intros Hs. simpl.
  destruct (Py.isspace c) eqn:Hc; [|done].
  apply IH. rewrite rstrip_cons, Hc in Hs.
  case_decide; [done|]. by injection Hs.
Qed.

Lemma lstrip_idem s : Py.lstrip (Py.lstrip s) = Py.lstrip s.
Proof.
  induction s as [|c s IH]; [done|]. simpl.
  destruct (Py.isspace c) eqn:Hc; [done|]. simpl. by rewrite Hc.
Qed.

Lemma strip_idem s : Py.strip (Py.strip s) = Py.strip s.
Proof.
  unfold Py.strip.
  by rewrite rstrip_lstrip, lstrip_idem by apply rstrip_idem.
Qed.

End Characters.

Section ParserInvariants.

Implicit Types (line : string) (lines : list string) (st : parser_state).
Implicit Types (info : gmap string (list string)) (cur : gmap string string).

(** A property every line of the text preserves holds at the end. *)
Lemma parse_lines_invariant (I : parser_state → Prop) lines st st' :
  (∀ line st st', line ∈ lines → I st → parse_line line st = Ok st' → I st') →
  I st → parse_lines lines st = Ok st' → I st'.
Proof.
  revert st. induction lines as [|line rest IH]; intros st Hstep Hst; simpl.
  - by intros [= <-].
  - destruct (parse_line line st) as [st1|e] eqn:Hline; simpl; [|done].
    apply IH.
    + intros l s1 s2 Hl. apply Hstep. by right.
    + apply (Hstep line st); [by left|done..].
Qed.

(** What one line does to the state, case by case. *)
Lemma parse_line_cases line info cur st' :
  parse_line line (ParserState info cur) = Ok st' →
  (Py.strip line = "" ∧
   ((cur !! "Package" = None ∧ st' = ParserState info ∅) ∨
    (∃ X l, cur !! "Package" = Some X ∧
            depends_list (default "" (cur !! "Depends")) = Ok l ∧
            st' = ParserState (<[X := l]> info) ∅))) ∨
  (Py.strip line ≠ "" ∧
   ((field_of line = None ∧ st' = ParserState info cur) ∨
    (∃ k v, field_of line = Some (k, v) ∧
            st' = ParserState info (<[k := v]> cur)))).
Proof.
  unfold parse_line. case_decide as Hblank.
  - intros Hc. left. split; [done|].
    destruct (cur !! "Package") as [X|] eqn:HX.
    + destruct (commit_record_package info cur X HX) as (l & Hl & Hc').
      right. exists X, l. split; [done|]. split; [done|]. congruence.
    + rewrite commit_record_no_package in Hc by done. left. split; congruence.
  - rewrite record_field_spec. simpl. intros [= <-]. right. split; [done|].
    unfold record_fields. simpl.
    destruct (field_of line) as [[k v]|]; [right; by exists k, v|by left].
Qed.

Lemma field_of_clean line k v :
  single_line line → field_of line = Some (k, v) →
  (Py.strip k = k ∧ single_line k) ∧ (Py.strip v = v ∧ single_line v).
Proof.
  unfold field_of, single_line. intros Hline.
  destruct (Py.contains ":" line); [|done].
  pose proof (split1_pieces_no_char "010" ":" line Hline) as Hp.
  destruct (Py.split1 ":" line) as [|a [|b [|? ?]]]; try done.
  apply Forall_cons in Hp as [Ha [Hb _]%Forall_cons].
  intros [= <- <-]. rewrite !strip_idem. by repeat split; apply strip_no_char.
Qed.

Lemma first_tokens_free (entries l : list string) :
  Forall (free_of ["," ; "010"]%char) entries →
  first_tokens entries = Ok l →
  Forall (free_of [" "; ","; "010"]%char) l.
Proof.
  intros He. revert l.
  induction He as [|dep rest Hdep Hrest IH]; intros l; simpl.
  { by intros [= <-]. }
  destruct (Py.split " " (Py.strip dep) !! 0) as [name|] eqn:Hname; [|done].
  destruct (first_tokens rest) as [l'|e]; simpl; [|done].
  intros [= <-]. constructor; [|by apply IH].
  apply list_elem_of_lookup_2 in Hname.
  apply Forall_cons in Hdep as [Hcomma [Hnl _]%Forall_cons].
  pose proof (split_pieces_no_sep " " (Py.strip dep)) as H1.
  pose proof (split_pieces_no_char "," " " (Py.strip dep)
                (strip_no_char _ _ Hcomma)) as H2.
  pose proof (split_pieces_no_char "010" " " (Py.strip dep)
                (strip_no_char _ _ Hnl)) as H3.
  rewrite Forall_forall in H1, H2, H3.
  repeat constructor; [by apply H1|by apply H2|by apply H3].
Qed.

Lemma depends_list_free (v : string) (l : list string) :
  single_line v → depends_list v = Ok l →
  Forall (free_of [" "; ","; "010"]%char) l.
Proof.
  intros Hv. unfold depends_list. case_decide; [by intros [= <-]|].
  apply first_tokens_free.
  pose proof (split_pieces_no_sep "," v) as H1.
  pose proof (split_pieces_no_char "010" "," v Hv) as H2.
  rewrite Forall_forall in H1, H2. apply Forall_forall. intros e He.
  repeat constructor; [by apply H1|by apply H2].
Qed.

End ParserInvariants.

(** X4.  The names of a parsed index are clean.  A package name has no
    whitespace at either end and no line break inside; a dependency name
    holds no space, no comma and no line break. *)
Theorem parse_names_clean (data : string)
    (index : gmap string (list string)) :
  parse_packages_data data = Ok index →
  ∀ X l, index !! X = Some l →
    Py.strip X = X ∧ single_line X ∧
    Forall (free_of [" "; ","; "010"]%char) l.
Proof.
  unfold parse_packages_data.
  destruct (parse_lines _ _) as [st'|e] eqn:Hrun; simpl; [|done].
  intros [= <-].
  eapply (parse_lines_invariant (λ st,
    (∀ k v, current_package st !! k = Some v →
            Py.strip v = v ∧ single_line v) ∧
    (∀ X l, packages_info st !! X = Some l →
            Py.strip X = X ∧ single_line X ∧
            Forall (free_of [" "; ","; "010"]%char) l))) in Hrun;
    [by apply Hrun| |by split; intros ? ?; simpl; rewrite lookup_empty].
  clear. intros line [info cur] st' Hline [Hcur Hinfo] Hstep. simpl in *.
  assert (single_line line) as Hsingle.
  { pose proof (split_pieces_no_sep "010" data) as Hp.
    rewrite Forall_forall in Hp. by apply Hp. }
  apply parse_line_cases in Hstep
    as [[_ [[_ ->]|(X & l & HX & Hl & ->)]]|[_ [[_ ->]|(k & v & Hf & ->)]]];
    simpl.
  - split; [by intros ? ?; rewrite lookup_empty|done].
  - split; [by intros ? ?; rewrite lookup_empty|].
    intros Y l'. destruct (decide (Y = X)) as [->|Hne].
    + rewrite lookup_insert_eq. intros [= <-].
      destruct (Hcur _ _ HX) as [? ?]. split; [done|]. split; [done|].
      apply (depends_list_free (default "" (cur !! "Depends"))); [|done].
      destruct (cur !! "Depends") as [v|] eqn:Hv; [|done].
      by destruct (Hcur _ _ Hv).
    + rewrite lookup_insert_ne by done. apply Hinfo.
  - done.
  - split; [|done]. intros k' v'.
    destruct (decide (k' = k)) as [->|Hne].
    + rewrite lookup_insert_eq. intros [= <-].
      by destruct (field_of_clean line k v Hsingle Hf) as [_ ?].
    + rewrite lookup_insert_ne by done. apply Hcur.
Qed.

Lemma parse_names_clean_witness :
  Py.strip "bash" = "bash" ∧ single_line "bash" ∧
  Forall (free_of [" "; ","; "010"]%char) ["libc6"; "libtinfo6"].
Proof.
  apply (parse_names_clean
           (Py.join newline
              ["  Package:   bash  "; "Depends: libc6 (>= 2.15), libtinfo6";
               ""])
           {[ "bash" := ["libc6"; "libtinfo6"] ]} ltac:(compute_done)
           "bash").
  compute_done.
Defined.

Section Entries.

Implicit Types (e : string * string) (es : list (string * string)).

Lemma join_entries_cons e e' es :
  Py.join ", " (entries_text (e :: e' :: es))
    = (e.1 +:+ e.2 +:+ ", ") +:+ Py.join ", " (entries_text (e' :: es)).
Proof.
  change (Py.join ", " (entries_text (e :: e' :: es)))
    with ((e.1 +:+ e.2) +:+ ", " +:+ Py.join ", " (entries_text (e' :: es))).
  by rewrite !append_assoc.
Qed.

Lemma join_entries_nonempty es :
  es ≠ [] → Forall depends_entry es →
  Py.join ", " (entries_text es) ≠ "".
Proof.
  intros Hne Hes. destruct es as [|e es]; [done|].
  apply Forall_cons in Hes as [((Hname & _) & _) _].
  destruct e as [[|c n] suf]; [done|]. by destruct es.
Qed.

Lemma depends_entry_rstrip e :
  depends_entry e → depends_entry (e.1, Py.rstrip e.2).
Proof.
  intros (Hname & Hsuf & Hcomma). split; [done|]. simpl.
  split; [|by apply rstrip_no_char].
  destruct Hsuf as [->|[junk ->]]; [by left|].
  rewrite rstrip_cons. case_decide; [by left|right; by eexists].
Qed.

(** Stripping the text of some entries strips the last of them. *)
Lemma rstrip_entries es :
  es ≠ [] → Forall depends_entry es →
  ∃ es', es' ≠ [] ∧ Forall depends_entry es' ∧ es'.*1 = es.*1 ∧
         Py.rstrip (Py.join ", " (entries_text es))
           = Py.join ", " (entries_text es').
Proof.
  intros Hne Hes. induction Hes as [|e es He Hes IH]; [done|].
  destruct es as [|e' es].
  - exists [(e.1, Py.rstrip e.2)]. split; [done|].
    split; [constructor; [by apply depends_entry_rstrip|constructor]|].
    split; [done|]. simpl.
    apply rstrip_nonspace_app, is_name_nonspace, He.
  - destruct IH as (es' & Hne' & Hes' & Hnames & Hstrip); [done|].
    exists (e :: es'). split; [done|]. split; [by constructor|].
    split; [by rewrite fmap_cons, Hnames|].
    rewrite join_entries_cons, rstrip_app, Hstrip.
    + destruct es' as [|e'' es']; [done|]. by rewrite join_entries_cons.
    + rewrite Hstrip. by apply join_entries_nonempty.
Qed.

Lemma strip_entries es :
  es ≠ [] → Forall depends_entry es →
  ∃ es', es' ≠ [] ∧ Forall depends_entry es' ∧ es'.*1 = es.*1 ∧
         Py.strip (Py.join ", " (entries_text es))
           = Py.join ", " (entries_text es').
Proof.
  intros Hne Hes.
  destruct (rstrip_entries es Hne Hes) as (es' & Hne' & Hes' & Hnames & Hr).
  exists es'. split; [done|]. split; [done|]. split; [done|].
  unfold Py.strip. rewrite Hr.
  destruct es' as [|e es']; [done|].
  pose proof Hes' as [(Hname & _) _]%Forall_cons.
  pose proof (is_name_nonspace _ Hname) as Hns. destruct Hname as [Hnil _].
  destruct e as [[|c n] suf]; [done|]. simpl in Hns.
  apply andb_true_iff in Hns as [Hc%negb_true_iff _].
  destruct es' as [|e' es'].
  - simpl. rewrite !append_cons. simpl. by rewrite Hc.
  - rewrite join_entries_cons. simpl. rewrite !append_cons. simpl.
    by rewrite Hc.
Qed.

End Entries.

(** X2.  A record whose [Depends] field lists any number of entries,
    separated by a comma and a space, each a name followed by nothing or by
    a space and anything free of commas (a version constraint, the
    alternatives after a bar), yields the names of the entries, in order:
    whatever follows the first space of an entry is dropped. *)
Theorem parse_record_depends_names (lines : list string) (P blank : string)
    (es : list (string * string)) :
  package_record P lines →
  unique_key "Depends" lines →
  es ≠ [] → Forall depends_entry es →
  ("Depends: " +:+ Py.join ", " (entries_text es)) ∈ lines →
  blank_line blank →
  parse_packages_data (Py.join newline (lines ++ [blank]))
    = Ok {[ P := es.*1 ]}.
Proof.
  intros Hrec Huniq Hne Hes Hin Hblank.
  destruct (parse_single_record lines blank P Hrec Hblank) as (l & Hl & ->).
  destruct (strip_entries es Hne Hes) as (es' & Hne' & Hes' & Hnames & Hstrip).
  assert (record_fields lines ∅ !! "Depends"
          = Some (Py.join ", " (entries_text es'))) as Hdep.
  { assert (field_of ("Depends: " +:+ Py.join ", " (entries_text es))
            = Some ("Depends", Py.join ", " (entries_text es'))) as Hf.
    { by rewrite field_of_Depends, Hstrip. }
    apply record_fields_lookup; [|left; eauto].
    intros l' v' Hl' Hf'.
    exact (unique_key_value lines "Depends" _ _ Huniq Hin Hf l' v' Hl' Hf'). }
  rewrite Hdep in Hl. simpl in Hl.
  rewrite depends_list_names in Hl by done. congruence.
Qed.

Lemma parse_record_depends_names_witness :
  parse_packages_data
    (Py.join newline
       (["Package: bash";
         "Depends: libc6 (>= 2.15), debconf | cdebconf, base-files"]
          ++ [""]))
  = Ok {[ "bash" := ["libc6"; "debconf"; "base-files"] ]}.
Proof.
  apply (parse_record_depends_names
           ["Package: bash";
            "Depends: libc6 (>= 2.15), debconf | cdebconf, base-files"]
           "bash" ""
           [("libc6", " (>= 2.15)"); ("debconf", " | cdebconf");
            ("base-files", "")]); compute_done.
Defined.

Lemma depends_list_length_witness :
  length ["a"; ""; "b"] = S (count_char "," "a,, b (>= 1)").
Proof.
  apply (depends_list_length "a,, b (>= 1)" ["a"; ""; "b"]). compute_done.
Defined.

(** X5.  The parser invents nothing.  Every key of the index is the value
    of a [Package] field of some line of the text, and its list is the
    dependency list of the empty value or of the value of a [Depends]
    field of some line of the text. *)
Theorem parse_entries_come_from_lines (data : string)
    (index : gmap string (list string)) :
  parse_packages_data data = Ok index →
  ∀ X l, index !! X = Some l →
    (∃ line, line ∈ Py.split "010" data ∧
             field_of line = Some ("Package", X)) ∧
    (∃ v, depends_list v = Ok l ∧
          (v = "" ∨ ∃ line, line ∈ Py.split "010" data ∧
                            field_of line = Some ("Depends", v))).
Proof.
  unfold parse_packages_data.
  destruct (parse_lines _ _) as [st'|e] eqn:Hrun; simpl; [|done].
  intros [= <-].
  eapply (parse_lines_invariant (λ st,
    (∀ k v, current_package st !! k = Some v →
            ∃ line, line ∈ Py.split "010" data ∧
                    field_of line = Some (k, v)) ∧
    (∀ X l, packages_info st !! X = Some l →
       (∃ line, line ∈ Py.split "010" data ∧
                field_of line = Some ("Package", X)) ∧
       (∃ v, depends_list v = Ok l ∧
             (v = "" ∨ ∃ line, line ∈ Py.split "010" data ∧
                               field_of line = Some ("Depends", v)))))) in Hrun;
    [by apply Hrun| |by split; intros ? ?; simpl; rewrite lookup_empty].
  clear. intros line [info cur] st' Hline [Hcur Hinfo] Hstep. simpl in *.
  apply parse_line_cases in Hstep
    as [[_ [[_ ->]|(X & l & HX & Hl & ->)]]|[_ [[_ ->]|(k & v & Hf & ->)]]];
    simpl.
  - split; [by intros ? ?; rewrite lookup_empty|done].
  - split; [by intros ? ?; rewrite lookup_empty|].
    intros Y l'. destruct (decide (Y = X)) as [->|Hne].
    + rewrite lookup_insert_eq. intros [= <-].
      split; [by apply Hcur|].
      exists (default "" (cur !! "Depends")). split; [done|].
      destruct (cur !! "Depends") as [v|] eqn:Hv; [|by left].
      right. by apply Hcur.
    + rewrite lookup_insert_ne by done. apply Hinfo.
  - done.
  - split; [|done]. intros k' v'.
    destruct (decide (k' = k)) as [->|Hne].
    + rewrite lookup_insert_eq. intros [= <-]. by exists line.
    + rewrite lookup_insert_ne by done. apply Hcur.
Qed.

Lemma parse_entries_come_from_lines_witness :
  (∃ line, line ∈ Py.split "010" (Py.join newline ["Package: X"; ""]) ∧
           field_of line = Some ("Package", "X")) ∧
  (∃ v, depends_list v = Ok [] ∧
        (v = "" ∨ ∃ line,
           line ∈ Py.split "010" (Py.join newline ["Package: X"; ""]) ∧
           field_of line = Some ("Depends", v))).
Proof.
  apply (parse_entries_come_from_lines
           (Py.join newline ["Package: X"; ""]) {[ "X" := [] ]}
           ltac:(compute_done) "X" []).
  compute_done.
Defined.

Section Composition.

Implicit Types (line : string) (lines : list string) (st : parser_state).
Implicit Types (info base : gmap string (list string)).
Implicit Types (cur : gmap string string).

(** Entries that are in the index before the loop starts stay under what
    the loop adds. *)
Lemma parse_lines_base lines info base cur st' :
  parse_lines lines (ParserState info cur) = Ok st' →
  parse_lines lines (ParserState (info ∪ base) cur)
    = Ok (ParserState (packages_info st' ∪ base) (current_package st')).
Proof.
  revert info cur.
  induction lines as [|line rest IH]; intros info cur; simpl.
  { by intros [= <-]. }
  destruct (parse_line line (ParserState info cur)) as [st1|e] eqn:Hline;
    simpl; [|done].
  intros Hrest.
  assert (parse_line line (ParserState (info ∪ base) cur)
          = Ok (ParserState (packages_info st1 ∪ base) (current_package st1)))
    as ->.
  { apply parse_line_cases in Hline
      as [[Hb [[HX ->]|(X & l & HX & Hl & ->)]]|[Hb [[Hf ->]|(k & v & Hf & ->)]]];
      unfold parse_line; simpl.
    - rewrite decide_True by done. by apply commit_record_no_package.
    - rewrite decide_True by done.
      destruct (commit_record_package (info ∪ base) cur X HX)
        as (l' & Hl' & ->).
      rewrite insert_union_l. congruence.
    - rewrite decide_False, record_field_spec by done. simpl.
      unfold record_fields. simpl. by rewrite Hf.
    - rewrite decide_False, record_field_spec by done. simpl.
      unfold record_fields. simpl. by rewrite Hf. }
  simpl. destruct st1 as [info1 cur1]. by apply IH.
Qed.

End Composition.

(** X6.  Parsing composes.  When the text [a] ends in a blank line, the
    index of [a], a line break and [b] is the index of [b] laid over the
    index of [a]: every package of either text is there, and a name both
    texts define has the list [b] gives it. *)
Theorem parse_concat (a b : string)
    (index_a index_b : gmap string (list string)) :
  ends_records (Py.split "010" a) →
  parse_packages_data a = Ok index_a →
  parse_packages_data b = Ok index_b →
  parse_packages_data (a +:+ newline +:+ b) = Ok (index_b ∪ index_a).
Proof.
  unfold parse_packages_data. intros Hends Ha Hb.
  change (a +:+ newline +:+ b) with (a +:+ String "010" b).
  rewrite split_app_sep, parse_lines_app.
  destruct (parse_lines (Py.split "010" a) _) as [[info_a cur_a]|e] eqn:Hrun_a;
    simpl in *; [|done].
  injection Ha as ->.
  assert (cur_a = ∅) as ->.
  { destruct (ends_records_inv _ Hends) as [Hnil|(init & blank & Hsplit & Hblank)].
    - by apply split_nonempty in Hnil.
    - rewrite Hsplit in Hrun_a.
      by apply parse_lines_blank_last in Hrun_a. }
  destruct (parse_lines (Py.split "010" b) _) as [[info_b cur_b]|e] eqn:Hrun_b;
    simpl in *; [|done].
  injection Hb as ->.
  apply (parse_lines_base _ _ index_a) in Hrun_b.
  rewrite (left_id_L ∅ (∪)) in Hrun_b. by rewrite Hrun_b.
Qed.

Lemma parse_concat_witness :
  parse_packages_data
    (Py.join newline ["Package: A"; "Depends: x"; ""; "Package: B"; ""]
       +:+ newline
       +:+ Py.join newline ["Package: A"; "Depends: y"; ""])
  = Ok ({[ "A" := ["y"] ]} ∪ {[ "A" := ["x"]; "B" := [] ]}).
Proof.
  apply (parse_concat
           (Py.join newline ["Package: A"; "Depends: x"; ""; "Package: B"; ""])
           (Py.join newline ["Package: A"; "Depends: y"; ""]));
    compute_done.
Defined.

Lemma record_fields_split (l1 l2 : list string) (cur : gmap string string) :
  record_fields (l1 ++ l2) cur = record_fields l2 (record_fields l1 cur).
Proof. apply foldl_app. Qed.

(** X7.  Within one record a repeated field is overwritten: the entry of
    the record is the dependency list of the value of its last [Depends]
    line, whatever the [Depends] lines before it held. *)
Theorem parse_record_last_depends (before after : list string)
    (X v blank : string) (l : list string) :
  package_record X (before ++ ["Depends: " +:+ v] ++ after) →
  Forall (λ line, key_of line ≠ Some "Depends") after →
  blank_line blank →
  depends_list (Py.strip v) = Ok l →
  parse_packages_data
    (Py.join newline ((before ++ ["Depends: " +:+ v] ++ after) ++ [blank]))
    = Ok {[ X := l ]}.
Proof.
  intros Hrec Hafter Hblank Hl.
  destruct (parse_single_record _ blank X Hrec Hblank) as (l' & Hl' & ->).
  rewrite !record_fields_split in Hl'.
  rewrite record_fields_lookup_absent in Hl' by (by apply Forall_forall).
  assert (record_fields ["Depends: " +:+ v] (record_fields before ∅)
            !! "Depends" = Some (Py.strip v)) as Hd.
  { unfold record_fields at 1. cbn [foldl]. rewrite field_of_Depends.
    apply lookup_insert_eq. }
  rewrite Hd in Hl'. simpl in Hl'. congruence.
Qed.

Lemma parse_record_last_depends_witness :
  parse_packages_data
    (Py.join newline
       ((["Depends: a, b"; "Package: X"] ++ ["Depends: c"]
           ++ ["Version: 1"]) ++ [""]))
  = Ok {[ "X" := ["c"] ]}.
Proof.
  apply (parse_record_last_depends
           ["Depends: a, b"; "Package: X"] ["Version: 1"] "X" "c" "" ["c"]);
    compute_done.
Defined.

(** * Further properties of the graph builder *)

Section BuilderMore.

Implicit Types (index : gmap string (list string)) (root p d : string).
Implicit Types (g : gmap string (gset string)).

Lemma edge_set index p d :
  edge index p d ↔ d ∈ (list_to_set (deps_of index p) : gset string).
Proof. unfold edge. by rewrite elem_of_list_to_set. Qed.

(** Two indexes whose dependency sets agree on what is reachable in the
    first reach the same names. *)
Lemma reachable_agree index index' root :
  (∀ p, reachable index root p →
        (list_to_set (deps_of index' p) : gset string)
          = list_to_set (deps_of index p)) →
  ∀ q, reachable index' root q ↔ reachable index root q.
Proof.
  intros Hagree q. split; revert q.
  - apply (rtc_ind_r (λ q, reachable index root q)); [apply rtc_refl|].
    intros y z Hy Hyz IH. eapply rtc_r; [exact IH|].
    apply edge_set. rewrite <-(Hagree y IH). by apply edge_set.
  - apply (rtc_ind_r (λ q, reachable index' root q)); [apply rtc_refl|].
    intros y z Hy Hyz IH. eapply rtc_r; [exact IH|].
    apply edge_set. rewrite (Hagree y Hy). by apply edge_set.
Qed.

(** Two indexes with the same dependency sets on what is reachable give
    the same graph, each under a limit that lets it return. *)
Lemma build_same_graph index index' root limit limit' g :
  (∀ p, reachable index root p →
        (list_to_set (deps_of index' p) : gset string)
          = list_to_set (deps_of index p)) →
  build_dependency_graph limit root index = Ok g →
  ∀ g', build_dependency_graph limit' root index' = Ok g' → g' = g.
Proof.
  intros Hagree Hg g' Hg'.
  apply build_dependency_graph_spec in Hg as (_ & Hkeys & Hvals).
  apply build_dependency_graph_spec in Hg' as (_ & Hkeys' & Hvals').
  pose proof (reachable_agree index index' root Hagree) as Hreach.
  apply map_eq. intros p.
  destruct (decide (p ∈ dom g)) as [Hp|Hp].
  - assert (p ∈ dom g') as Hp' by (by apply Hkeys', Hreach, Hkeys).
    rewrite (Hvals p Hp), (Hvals' p Hp'). f_equal.
    by apply Hagree, Hkeys.
  - assert (p ∉ dom g') as Hp'.
    { intros Hp'. by apply Hp, Hkeys, Hreach, Hkeys'. }
    apply not_elem_of_dom in Hp, Hp'. by rewrite Hp, Hp'.
Qed.

Lemma for_each_ext {A S : Type} (f f' : A → S → option S) (l : list A) st :
  (∀ x st, x ∈ l → f x st = f' x st) →
  for_each f l st = for_each f' l st.
Proof.
  revert st. induction l as [|x l IH]; intros st Hext; simpl; [done|].
  rewrite (Hext x st) by (by left).
  destruct (f' x st) as [st1|]; [|done].
  apply IH. intros y st2 Hy. apply Hext. by right.
Qed.

(** [dfs] reads the index at reachable names only. *)
Lemma dfs_agree index index' root :
  (∀ p, reachable index root p → index' !! p = index !! p) →
  ∀ depth pkg st, reachable index root pkg →
    dfs depth index' pkg st = dfs depth index pkg st.
Proof.
  intros Hagree depth.
  induction depth as [|depth IH]; intros pkg st Hpkg; [done|].
  rewrite !dfs_unfold. case_decide; [done|].
  assert (deps_of index' pkg = deps_of index pkg) as ->.
  { unfold deps_of. by rewrite (Hagree pkg Hpkg). }
  apply for_each_ext. intros dep st1 Hdep. unfold visit_dep.
  apply IH. eapply rtc_r; [exact Hpkg|done].
Qed.

Lemma elem_of_names index (x : string) :
  x ∈ names index ↔
  x ∈ dom index ∨ ∃ q l, index !! q = Some l ∧ x ∈ l.
Proof.
  unfold names. rewrite elem_of_union, elem_of_union_list.
  split; (intros [Hx|Hx]; [by left|right]).
  - destruct Hx as (X & HX & Hx).
    apply list_elem_of_fmap in HX as (l & -> & Hl).
    apply list_elem_of_fmap in Hl as ([q l'] & -> & Hq).
    apply elem_of_map_to_list in Hq. apply elem_of_list_to_set in Hx.
    by exists q, l'.
  - destruct Hx as (q & l & Hq & Hx).
    exists (list_to_set l). split; [|by apply elem_of_list_to_set].
    apply list_elem_of_fmap. exists l. split; [done|].
    apply list_elem_of_fmap. exists (q, l). split; [done|].
    by apply elem_of_map_to_list.
Qed.

End BuilderMore.

(** X8.  The graph [build] returns is exact.  Its keys are the names
    reachable from the root, no more and no fewer, and the entry of a key
    is the set of the names in its dependency list in the index, the empty
    set for a name the index does not define: duplicates in a list
    collapse, and no edge is lost or added. *)
Theorem build_graph_exact (limit : nat) (root : string)
    (index : gmap string (list string)) (g : gmap string (gset string)) :
  build_dependency_graph limit root index = Ok g →
  (∀ p, p ∈ dom g ↔ reachable index root p) ∧
  (∀ p s, g !! p = Some s → s = list_to_set (default [] (index !! p))).
Proof.
  intros Hg. apply build_dependency_graph_spec in Hg as (_ & Hkeys & Hvals).
  split; [done|]. intros p s Hp.
  assert (p ∈ dom g) as Hpg by (apply elem_of_dom; eauto).
  rewrite (Hvals p Hpg) in Hp. by injection Hp as <-.
Qed.

Lemma build_graph_exact_witness :
  (∀ p, p ∈ dom ({[ "A" := {["B"]}; "B" := ∅ ]} : gmap string (gset string))
        ↔ reachable {[ "A" := ["B"; "B"]; "C" := ["A"] ]} "A" p) ∧
  (∀ p s, ({[ "A" := {["B"]}; "B" := ∅ ]} : gmap string (gset string)) !! p
            = Some s →
          s = list_to_set
                (default [] (({[ "A" := ["B"; "B"]; "C" := ["A"] ]}
                                : gmap string (list string)) !! p))).
Proof.
  apply (build_graph_exact 2 "A" {[ "A" := ["B"; "B"]; "C" := ["A"] ]}).
  compute_done.
Defined.

(** X9.  The graph of a dependency is part of the graph of the root: for
    a key [d] of the index that is reachable from the root, [build] from
    [d] returns a graph whenever more nested calls are allowed than the
    index has names, and every entry of that graph is an entry of the
    graph built from the root. *)
Theorem build_subgraph (limit limit' : nat) (root d : string)
    (index : gmap string (list string)) (g : gmap string (gset string)) :
  build_dependency_graph limit root index = Ok g →
  reachable index root d → d ∈ dom index →
  size (names index) < limit' →
  ∃ g', build_dependency_graph limit' d index = Ok g' ∧ g' ⊆ g.
Proof.
  intros Hg Hd Hin Hlimit.
  destruct (build_dependency_graph_total index limit' d Hin Hlimit)
    as [g' Hg'].
  exists g'. split; [done|].
  apply build_dependency_graph_spec in Hg as (_ & Hkeys & Hvals).
  apply build_dependency_graph_spec in Hg' as (_ & Hkeys' & Hvals').
  apply map_subseteq_spec. intros p s Hp.
  assert (p ∈ dom g') as Hpg' by (apply elem_of_dom; eauto).
  assert (p ∈ dom g) as Hpg.
  { apply Hkeys. unfold reachable. etrans; [exact Hd|]. by apply Hkeys'. }
  rewrite (Hvals' p Hpg') in Hp. by rewrite (Hvals p Hpg).
Qed.

Lemma build_subgraph_witness :
  ∃ g', build_dependency_graph 5 "libc6" test_index = Ok g' ∧
        g' ⊆ {[ "bash" := {[ "libc6"; "libtinfo6" ]};
                "libc6" := {[ "libgcc1" ]};
                "libtinfo6" := ∅;
                "libgcc1" := ∅ ]}.
Proof.
  apply (build_subgraph 1000 5 "bash" "libc6" test_index);
    [compute_done| |compute_done|compute_done].
  apply rtc_once. unfold edge. compute_done.
Defined.

(** X10.  Only what is reachable matters.  An index that agrees with
    [index] on every name reachable from the root gives the same result
    under the same recursion limit, whatever else it defines, drops or
    changes. *)
Theorem build_local (limit : nat) (root : string)
    (index index' : gmap string (list string)) :
  (∀ p, reachable index root p → index' !! p = index !! p) →
  build_dependency_graph limit root index'
    = build_dependency_graph limit root index.
Proof.
  intros Hagree. unfold build_dependency_graph.
  assert (reachable index root root) as Hroot by apply rtc_refl.
  rewrite (dfs_agree index index' root Hagree limit root _ Hroot).
  destruct (decide (root ∈ dom index)) as [Hin|Hnin].
  - rewrite decide_True; [done|].
    rewrite elem_of_dom, (Hagree root Hroot). by apply elem_of_dom.
  - rewrite decide_False; [done|].
    rewrite elem_of_dom, (Hagree root Hroot). by rewrite <-elem_of_dom.
Qed.

Lemma build_local_witness :
  build_dependency_graph 1000 "A" {[ "A" := ["B"]; "C" := ["A"; "D"] ]}
    = build_dependency_graph 1000 "A" {[ "A" := ["B"] ]}.
Proof.
  apply (build_local 1000 "A" {[ "A" := ["B"] ]}
           {[ "A" := ["B"]; "C" := ["A"; "D"] ]}).
  intros p [->| ->]%reachable_single_edge; compute_done.
Defined.

(** Under a limit the traversal reaches, the order of a list decides
    whether it overflows: with three nested calls allowed, [B] before [C]
    descends [A], [B], [C], [D] and overflows, while [C] before [B] never
    goes deeper than three. *)
Example list_order_decides_overflow :
  build_dependency_graph 3 "A"
    {[ "A" := ["B"; "C"]; "B" := ["C"]; "C" := ["D"] ]}
    = Raise RecursionError ∧
  build_dependency_graph 3 "A"
    {[ "A" := ["C"; "B"]; "B" := ["C"]; "C" := ["D"] ]}
    = Ok {[ "A" := {[ "B"; "C" ]}; "B" := {[ "C" ]}; "C" := {[ "D" ]};
            "D" := ∅ ]}.
Proof. split; compute_done. Qed.

(** X11.  The order of a dependency list and the repetitions in it do not
    matter, as long as the recursion limit is not reached: for two indexes
    with the same keys whose lists hold the same names, [build] gives the
    same result from every root whenever more nested calls are allowed
    than the index has names.  (Nearer the limit the order does matter,
    see [list_order_decides_overflow].) *)
Theorem build_ignores_list_order (limit : nat) (root : string)
    (index index' : gmap string (list string)) :
  dom index' = dom index →
  (∀ p l l', index !! p = Some l → index' !! p = Some l' →
             ∀ d, d ∈ l' ↔ d ∈ l) →
  size (names index) < limit →
  build_dependency_graph limit root index'
    = build_dependency_graph limit root index.
Proof.
  intros Hdom Hsame Hlimit.
  assert (∀ p, (list_to_set (deps_of index' p) : gset string)
               = list_to_set (deps_of index p)) as Hsets.
  { intros p. unfold deps_of.
    destruct (index !! p) as [l|] eqn:Hl, (index' !! p) as [l'|] eqn:Hl'.
    - simpl. apply set_eq. intros d. rewrite !elem_of_list_to_set.
      by apply (Hsame p l l').
    - apply elem_of_dom_2 in Hl. apply not_elem_of_dom in Hl'. set_solver.
    - apply elem_of_dom_2 in Hl'. apply not_elem_of_dom in Hl. set_solver.
    - done. }
  assert (names index' = names index) as Hnames.
  { apply set_eq. intros x. rewrite !elem_of_names, Hdom.
    split; (intros [Hx|(q & l & Hq & Hx)]; [by left|right]).
    - assert (is_Some (index !! q)) as [l0 Hl0].
      { apply elem_of_dom. rewrite <-Hdom. by apply elem_of_dom_2 in Hq. }
      exists q, l0. split; [done|]. by apply (Hsame q l0 l).
    - assert (is_Some (index' !! q)) as [l0 Hl0].
      { apply elem_of_dom. rewrite Hdom. by apply elem_of_dom_2 in Hq. }
      exists q, l0. split; [done|]. by apply (Hsame q l l0). }
  destruct (decide (root ∈ dom index)) as [Hin|Hnin].
  - destruct (build_dependency_graph_total index limit root Hin Hlimit)
      as [g Hg].
    destruct (build_dependency_graph_total index' limit root) as [g' Hg'];
      [by rewrite Hdom|by rewrite Hnames|].
    rewrite Hg, Hg'. f_equal.
    by apply (build_same_graph index index' root limit limit g).
  - unfold build_dependency_graph.
    rewrite !decide_False; [done..|by rewrite Hdom].
Qed.

Lemma build_ignores_list_order_witness :
  build_dependency_graph 4 "A" {[ "A" := ["C"; "B"; "C"] ]}
    = build_dependency_graph 4 "A" {[ "A" := ["B"; "C"] ]}.
Proof.
  apply (build_ignores_list_order 4 "A" {[ "A" := ["B"; "C"] ]}
           {[ "A" := ["C"; "B"; "C"] ]}); [compute_done| |compute_done].
  intros p l l'. destruct (decide (p = "A")) as [->|Hne].
  - rewrite !lookup_singleton_eq. intros [= <-] [= <-] d. set_solver.
  - by rewrite lookup_singleton_ne.
Defined.

(** * Further properties of the serializer *)

Section SerializerMore.

Implicit Types (items : list (string * list string)) (l : list string).
Implicit Types (pkg dep s t : string) (c : ascii).

Lemma generate_graphviz_code_statements items :
  generate_graphviz_code items
    = Py.join newline (["digraph G {"] ++ edge_statements items ++ ["}"]).
Proof. apply generate_graphviz_code_lines. Qed.

Lemma edge_line_single pkg dep :
  single_line pkg → single_line dep → single_line (edge_line pkg dep).
Proof.
  unfold single_line, edge_line. intros Hp Hd.
  by rewrite !contains_app, Hp, Hd.
Qed.

Lemma edge_statements_single items :
  Forall (λ item, single_line item.1 ∧ Forall single_line item.2) items →
  Forall single_line (edge_statements items).
Proof.
  intros Hitems. unfold edge_statements.
  induction Hitems as [|[pkg deps] items [Hp Hd] Hitems IH]; [constructor|].
  rewrite bind_cons. apply Forall_app. split; [|done].
  simpl in *. apply Forall_fmap. eapply Forall_impl; [exact Hd|].
  intros dep Hdep. by apply edge_line_single.
Qed.

Lemma edge_statements_length items :
  length (edge_statements items) = sum_list (length <$> items.*2).
Proof.
  unfold edge_statements.
  induction items as [|[pkg deps] items IH]; [done|].
  rewrite bind_cons, length_app, length_fmap, IH. done.
Qed.

(** Strings that agree up to a character neither holds before it agree
    before and after it. *)
Lemma append_sep_inj c s s' t t' :
  Py.contains c s = false → Py.contains c s' = false →
  s +:+ String c t = s' +:+ String c t' → s = s' ∧ t = t'.
Proof.
  revert s'. induction s as [|a s IH]; intros [|a' s'] Hs Hs';
    rewrite ?append_nil_l, ?append_cons; simpl in *.
  - by intros [= ->].
  - intros [= <- _]. by rewrite decide_True in Hs'.
  - intros [= -> _]. by rewrite decide_True in Hs.
  - intros [= <- Heq]. case_decide; [done|].
    destruct (IH s' Hs Hs' Heq) as [-> ->]. done.
Qed.

(** The lines of the output, for names without a line break. *)
Lemma generate_graphviz_code_split items :
  Forall (λ item, single_line item.1 ∧ Forall single_line item.2) items →
  Py.split "010" (generate_graphviz_code items)
    = ["digraph G {"] ++ edge_statements items ++ ["}"].
Proof.
  intros Hitems. rewrite generate_graphviz_code_statements.
  apply split_join_lines; [done|].
  apply Forall_app. split; [by repeat constructor|].
  apply Forall_app. split; [by apply edge_statements_single|].
  by repeat constructor.
Qed.

(** The text of an edge statement, character for character. *)
Lemma edge_line_text pkg dep :
  edge_line pkg dep
    = "    " +:+ String "034" (pkg +:+ String "034" (" -> "
        +:+ String "034" (dep +:+ String "034" ";"))).
Proof. reflexivity. Qed.

End SerializerMore.

(** X12.  The output has one line for each edge and two more.  For a
    graph whose names hold no line break, the lines of the output are the
    header, the edge statements in iteration order, and the closing brace;
    the empty graph gives the header and the brace alone. *)
Theorem serialize_lines (items : list (string * list string)) :
  Forall (λ item, single_line item.1 ∧ Forall single_line item.2) items →
  Py.split "010" (generate_graphviz_code items)
    = ["digraph G {"] ++ edge_statements items ++ ["}"] ∧
  length (Py.split "010" (generate_graphviz_code items))
    = 2 + sum_list (length <$> items.*2).
Proof.
  intros Hitems.
  assert (Py.split "010" (generate_graphviz_code items)
          = ["digraph G {"] ++ edge_statements items ++ ["}"]) as Hsplit.
  { rewrite generate_graphviz_code_statements.
    apply split_join_lines; [done|].
    apply Forall_app. split; [by repeat constructor|].
    apply Forall_app. split; [by apply edge_statements_single|].
    by repeat constructor. }
  split; [done|]. rewrite Hsplit.
  rewrite !length_app, edge_statements_length. simpl. lia.
Qed.

Lemma serialize_lines_witness :
  Py.split "010"
    (generate_graphviz_code [("bash", ["libc6"; "libtinfo6"]); ("libc6", [])])
    = ["digraph G {"]
        ++ edge_statements [("bash", ["libc6"; "libtinfo6"]); ("libc6", [])]
        ++ ["}"] ∧
  length (Py.split "010"
            (generate_graphviz_code
               [("bash", ["libc6"; "libtinfo6"]); ("libc6", [])]))
    = 2 + sum_list
            (length <$> [("bash", ["libc6"; "libtinfo6"]); ("libc6", [])].*2).
Proof.
  apply (serialize_lines [("bash", ["libc6"; "libtinfo6"]); ("libc6", [])]).
  compute_done.
Defined.

(** Edge statements of names free of double quotes determine the names. *)
Lemma edge_statement_names (pkg dep pkg' dep' : string) :
  free_of ["034"%char] pkg → free_of ["034"%char] dep →
  free_of ["034"%char] pkg' → free_of ["034"%char] dep' →
  edge_line pkg dep = edge_line pkg' dep' →
  pkg = pkg' ∧ dep = dep'.
Proof.
  intros [Hp _]%Forall_cons [Hd _]%Forall_cons
         [Hp' _]%Forall_cons [Hd' _]%Forall_cons.
  unfold edge_line.
  change ("    " +:+ dquote +:+ pkg +:+ dquote +:+ " -> " +:+ dquote
            +:+ dep +:+ dquote +:+ ";")
    with ("    " +:+ dquote
            +:+ (pkg +:+ String "034"
                          (" -> " +:+ dquote +:+ (dep +:+ String "034" ";")))).
  change ("    " +:+ dquote +:+ pkg' +:+ dquote +:+ " -> " +:+ dquote
            +:+ dep' +:+ dquote +:+ ";")
    with ("    " +:+ dquote
            +:+ (pkg' +:+ String "034"
                           (" -> " +:+ dquote +:+ (dep' +:+ String "034" ";")))).
  intros [= Heq].
  apply append_sep_inj in Heq as [-> Heq]; [|done..].
  split; [done|]. injection Heq as Heq.
  by apply append_sep_inj in Heq as [-> _].
Qed.

(** X13.  An edge statement names its edge: when no name holds a double
    quote, two edge statements are equal only if they join the same
    package to the same dependency. *)
Theorem edge_line_inj (pkg dep pkg' dep' : string) :
  free_of ["034"%char] pkg → free_of ["034"%char] dep →
  free_of ["034"%char] pkg' → free_of ["034"%char] dep' →
  edge_line pkg dep = edge_line pkg' dep' →
  pkg = pkg' ∧ dep = dep'.
Proof. apply edge_statement_names. Qed.

Lemma edge_line_inj_witness :
  "bash" = "bash" ∧ "libc6" = "libc6".
Proof.
  apply (edge_line_inj "bash" "libc6" "bash" "libc6"); compute_done.
Defined.

Section GraphItems.

Implicit Types (items : list (string * list string)) (l : list string).
Implicit Types (g : gmap string (gset string)) (e pkg dep : string).

Lemma elem_of_edge_statements items e :
  e ∈ edge_statements items ↔
  ∃ pkg deps dep, (pkg, deps) ∈ items ∧ dep ∈ deps ∧ e = edge_line pkg dep.
Proof.
  unfold edge_statements. rewrite list_elem_of_bind. split.
  - intros ([pkg deps] & He & Hitem).
    apply list_elem_of_fmap in He as (dep & -> & Hdep).
    by exists pkg, deps, dep.
  - intros (pkg & deps & dep & Hitem & Hdep & ->).
    exists (pkg, deps). split; [|done].
    apply list_elem_of_fmap. by exists dep.
Qed.

Lemma graph_items_lookup g items pkg deps :
  graph_items g items → (pkg, deps) ∈ items →
  ∃ s, g !! pkg = Some s ∧ iterates s deps.
Proof.
  intros (_ & _ & Hall) Hin. rewrite Forall_forall in Hall.
  apply (Hall (pkg, deps) Hin).
Qed.

Lemma graph_items_key g items pkg s :
  graph_items g items → g !! pkg = Some s →
  ∃ deps, (pkg, deps) ∈ items ∧ iterates s deps.
Proof.
  intros Hitems Hpkg. pose proof Hitems as (_ & Hkeys & _).
  assert (pkg ∈ items.*1) as Hin by (by apply Hkeys, elem_of_dom).
  apply list_elem_of_fmap in Hin as ([pkg' deps] & -> & Hin). simpl in *.
  exists deps. split; [done|].
  destruct (graph_items_lookup g items pkg' deps Hitems Hin) as (s' & Hs' & Hit).
  congruence.
Qed.

End GraphItems.

Lemma elem_of_output_lines (items : list (string * list string))
    (line : string) :
  Forall (λ item, single_line item.1 ∧ Forall single_line item.2) items →
  line ∈ Py.split "010" (generate_graphviz_code items) ↔
  line = "digraph G {" ∨ line = "}" ∨
  ∃ pkg deps dep, (pkg, deps) ∈ items ∧ dep ∈ deps ∧
                  line = edge_line pkg dep.
Proof.
  intros Hitems. rewrite generate_graphviz_code_split by done.
  rewrite !elem_of_app, !list_elem_of_singleton, elem_of_edge_statements.
  tauto.
Qed.

(** X14.  The lines of the output are the header, the closing brace, and
    an edge statement for exactly the edges of the graph.  For a graph
    whose names hold no line break, whatever the iteration order of the
    graph and of its sets, a line of the output other than the header and
    the brace is four spaces, the key in double quotes, an arrow, a member
    of the set of that key in double quotes, and a semicolon; and every
    such line is in the output. *)
Theorem serialize_edges_exact (g : gmap string (gset string))
    (items : list (string * list string)) (line : string) :
  graph_items g items →
  Forall (λ item, single_line item.1 ∧ Forall single_line item.2) items →
  line ∈ Py.split "010" (generate_graphviz_code items) ↔
  line = "digraph G {" ∨ line = "}" ∨
  ∃ pkg s dep, g !! pkg = Some s ∧ dep ∈ s ∧
    line = "    " +:+ String "034" (pkg +:+ String "034" (" -> "
             +:+ String "034" (dep +:+ String "034" ";"))).
Proof.
  intros Hitems Hsingle. rewrite elem_of_output_lines by done.
  split; (intros [Hl|[Hl|Hl]]; [by left|by right; left|right; right]).
  - destruct Hl as (pkg & deps & dep & Hin & Hdep & ->).
    destruct (graph_items_lookup g items pkg deps Hitems Hin)
      as (s & Hs & _ & <-).
    exists pkg, (list_to_set deps), dep.
    split; [done|]. split; [by apply elem_of_list_to_set|].
    apply edge_line_text.
  - destruct Hl as (pkg & s & dep & Hs & Hdep & ->).
    destruct (graph_items_key g items pkg s Hitems Hs)
      as (deps & Hin & _ & <-).
    exists pkg, deps, dep. split; [done|].
    split; [by apply elem_of_list_to_set in Hdep|].
    symmetry. apply edge_line_text.
Qed.

Lemma graph_items_test_graph :
  graph_items {[ "bash" := {[ "libc6" ]}; "libc6" := ∅ ]}
    [("libc6", []); ("bash", ["libc6"])].
Proof.
  split; [compute_done|]. split.
  - intros k. rewrite dom_insert_L, dom_singleton_L. simpl. set_solver.
  - constructor; [|constructor; [|constructor]].
    + exists ∅. split; [compute_done|]. split; compute_done.
    + exists {[ "libc6" ]}. split; [compute_done|]. split; compute_done.
Qed.

(** An iteration of the graph of [test_build_dependency_graph]. *)
Lemma graph_items_bash_graph :
  graph_items
    {[ "bash" := {[ "libc6"; "libtinfo6" ]}; "libc6" := {[ "libgcc1" ]};
       "libtinfo6" := ∅; "libgcc1" := ∅ ]}
    [("libgcc1", []); ("bash", ["libtinfo6"; "libc6"]);
     ("libc6", ["libgcc1"]); ("libtinfo6", [])].
Proof.
  split; [compute_done|]. split.
  - intros k. rewrite !dom_insert_L, dom_singleton_L. simpl. set_solver.
  - constructor; [|constructor; [|constructor; [|constructor; [|constructor]]]].
    + exists ∅. split; [compute_done|]. split; compute_done.
    + exists {[ "libc6"; "libtinfo6" ]}.
      split; [compute_done|]. split; compute_done.
    + exists {[ "libgcc1" ]}. split; [compute_done|]. split; compute_done.
    + exists ∅. split; [compute_done|]. split; compute_done.
Qed.

Lemma serialize_edges_exact_witness :
  "    " +:+ String "034" ("bash" +:+ String "034" (" -> "
     +:+ String "034" ("libc6" +:+ String "034" ";")))
    ∈ Py.split "010"
        (generate_graphviz_code
           [("libgcc1", []); ("bash", ["libtinfo6"; "libc6"]);
            ("libc6", ["libgcc1"]); ("libtinfo6", [])]) ↔
  "    " +:+ String "034" ("bash" +:+ String "034" (" -> "
     +:+ String "034" ("libc6" +:+ String "034" ";"))) = "digraph G {" ∨
  "    " +:+ String "034" ("bash" +:+ String "034" (" -> "
     +:+ String "034" ("libc6" +:+ String "034" ";"))) = "}" ∨
  ∃ pkg s dep,
    ({[ "bash" := {[ "libc6"; "libtinfo6" ]}; "libc6" := {[ "libgcc1" ]};
        "libtinfo6" := ∅; "libgcc1" := ∅ ]}
       : gmap string (gset string)) !! pkg = Some s ∧
    dep ∈ s ∧
    "    " +:+ String "034" ("bash" +:+ String "034" (" -> "
       +:+ String "034" ("libc6" +:+ String "034" ";")))
      = "    " +:+ String "034" (pkg +:+ String "034" (" -> "
          +:+ String "034" (dep +:+ String "034" ";"))).
Proof.
  apply (serialize_edges_exact
           {[ "bash" := {[ "libc6"; "libtinfo6" ]}; "libc6" := {[ "libgcc1" ]};
              "libtinfo6" := ∅; "libgcc1" := ∅ ]}
           [("libgcc1", []); ("bash", ["libtinfo6"; "libc6"]);
            ("libc6", ["libgcc1"]); ("libtinfo6", [])]).
  - exact graph_items_bash_graph.
  - compute_done.
Defined.

(** X15.  From the index to the text.  When [build] succeeds on an index
    whose names hold no line break, the lines of the serialized graph, for
    any iteration order, are the header, the closing brace, and exactly
    the edge statements of the dependency edges of the index that leave a
    name reachable from the root: four spaces, the name in double quotes,
    an arrow, the dependency in double quotes, a semicolon. *)
Theorem build_then_serialize (limit : nat) (root : string)
    (index : gmap string (list string)) (g : gmap string (gset string))
    (items : list (string * list string)) (line : string) :
  build_dependency_graph limit root index = Ok g →
  graph_items g items →
  Forall (λ item, single_line item.1 ∧ Forall single_line item.2) items →
  line ∈ Py.split "010" (generate_graphviz_code items) ↔
  line = "digraph G {" ∨ line = "}" ∨
  ∃ p d, reachable index root p ∧ edge index p d ∧
    line = "    " +:+ String "034" (p +:+ String "034" (" -> "
             +:+ String "034" (d +:+ String "034" ";"))).
Proof.
  intros Hg Hitems Hsingle.
  apply build_dependency_graph_spec in Hg as (_ & Hkeys & Hvals).
  rewrite elem_of_output_lines by done.
  split; (intros [Hl|[Hl|Hl]]; [by left|by right; left|right; right]).
  - destruct Hl as (pkg & deps & dep & Hin & Hdep & ->).
    destruct (graph_items_lookup g items pkg deps Hitems Hin)
      as (s & Hs & _ & <-).
    assert (pkg ∈ dom g) as Hpkg by (apply elem_of_dom; eauto).
    exists pkg, dep. split; [by apply Hkeys|]. split; [|apply edge_line_text].
    rewrite (Hvals pkg Hpkg) in Hs. injection Hs as Hs.
    apply edge_set. rewrite Hs. by apply elem_of_list_to_set.
  - destruct Hl as (p & d & Hp & Hd & ->).
    apply Hkeys in Hp.
    destruct (graph_items_key g items p _ Hitems (Hvals p Hp))
      as (deps & Hin & _ & Hset).
    exists p, deps, d. split; [done|].
    split; [|symmetry; apply edge_line_text].
    apply edge_set in Hd. rewrite <-Hset in Hd.
    by apply elem_of_list_to_set in Hd.
Qed.

Lemma build_then_serialize_witness :
  "    " +:+ String "034" ("libc6" +:+ String "034" (" -> "
     +:+ String "034" ("libgcc1" +:+ String "034" ";")))
    ∈ Py.split "010"
        (generate_graphviz_code
           [("libgcc1", []); ("bash", ["libtinfo6"; "libc6"]);
            ("libc6", ["libgcc1"]); ("libtinfo6", [])]) ↔
  "    " +:+ String "034" ("libc6" +:+ String "034" (" -> "
     +:+ String "034" ("libgcc1" +:+ String "034" ";"))) = "digraph G {" ∨
  "    " +:+ String "034" ("libc6" +:+ String "034" (" -> "
     +:+ String "034" ("libgcc1" +:+ String "034" ";"))) = "}" ∨
  ∃ p d, reachable test_index "bash" p ∧ edge test_index p d ∧
    "    " +:+ String "034" ("libc6" +:+ String "034" (" -> "
       +:+ String "034" ("libgcc1" +:+ String "034" ";")))
      = "    " +:+ String "034" (p +:+ String "034" (" -> "
          +:+ String "034" (d +:+ String "034" ";"))).
Proof.
  apply (build_then_serialize 1000 "bash" test_index
           {[ "bash" := {[ "libc6"; "libtinfo6" ]}; "libc6" := {[ "libgcc1" ]};
              "libtinfo6" := ∅; "libgcc1" := ∅ ]}
           [("libgcc1", []); ("bash", ["libtinfo6"; "libc6"]);
            ("libc6", ["libgcc1"]); ("libtinfo6", [])]).
  - compute_done.
  - exact graph_items_bash_graph.
  - compute_done.
Defined.

Section Url.

Implicit Types (c : ascii) (s t url : string).

Lemma rstrip_char_cons c a s :
  Py.rstrip_char c (String a s) =
    if decide (Py.rstrip_char c s = "") then
      if decide (a = c) then "" else String a ""
    else String a (Py.rstrip_char c s).
Proof. simpl. by destruct (Py.rstrip_char c s). Qed.

Lemma rstrip_char_all c t :
  all_chars (λ a, bool_decide (a = c)) t = true → Py.rstrip_char c t = "".
Proof.
  induction t as [|a t IH]; [done|]. simpl.
  intros [Ha%bool_decide_eq_true Ht]%andb_true_iff.
  by rewrite IH, decide_True.
Qed.

Lemma rstrip_char_app c s t :
  all_chars (λ a, bool_decide (a = c)) t = true →
  Py.rstrip_char c (s +:+ t) = Py.rstrip_char c s.
Proof.
  intros Ht. induction s as [|a s IH].
  - rewrite append_nil_l. by apply rstrip_char_all.
  - by rewrite append_cons, !rstrip_char_cons, IH.
Qed.

End Url.

(** X16.  Slashes at the end of the repository address do not matter: for
    an address without a slash at its end, followed by any number of
    slashes, the index is fetched from the address, one slash and
    [Packages.gz]. *)
Theorem packages_url_trailing_slashes (url slashes : string) :
  Py.rstrip_char "/" url = url →
  all_chars (λ a, bool_decide (a = "/"%char)) slashes = true →
  packages_url (url +:+ slashes) = url +:+ "/Packages.gz".
Proof.
  intros Hurl Hslashes. unfold packages_url.
  by rewrite rstrip_char_app, Hurl.
Qed.

Lemma packages_url_trailing_slashes_witness :
  packages_url ("http://archive.ubuntu.com/ubuntu/dists/focal/main/binary-amd64"
                  +:+ "//")
  = "http://archive.ubuntu.com/ubuntu/dists/focal/main/binary-amd64"
      +:+ "/Packages.gz".
Proof.
  apply (packages_url_trailing_slashes
           "http://archive.ubuntu.com/ubuntu/dists/focal/main/binary-amd64"
           "//"); compute_done.
Defined.

Lemma parse_packages_data_total (data : string) :
  ∃ index, parse_packages_data data = Ok index.
Proof.
  unfold parse_packages_data.
  destruct (parse_lines_total (Py.split "010" data) (ParserState ∅ ∅))
    as [st' ->].
  by eexists.
Qed.

(** X17.  The outcomes of the two steps of [main].  For every text, name
    and recursion limit: the text parses to an index; if the name is a key
    of it, a graph with that key is returned, or the traversal needed more
    nested calls than allowed, which can only be when the limit does not
    exceed the number of names of the index, and [RecursionError] is
    raised; if the name is no key, the not-found exception is raised.
    Nothing else is ever raised. *)
Theorem main_graph_outcomes (limit : nat) (name packages_data : string) :
  ∃ index, parse_packages_data packages_data = Ok index ∧
    ((name ∈ dom index ∧
      ((∃ g, main_graph limit name packages_data = Ok g ∧ name ∈ dom g) ∨
       (limit ≤ size (names index) ∧
        main_graph limit name packages_data = Raise RecursionError))) ∨
     ((name ∉ dom index) ∧
      main_graph limit name packages_data
        = Raise (Exception ("Package " +:+ name
                            +:+ " not found in repository.")))).
Proof.
  destruct parse_packages_data_total with (data := packages_data)
    as [index Hindex].
  exists index. split; [done|]. unfold main_graph. rewrite Hindex. simpl.
  destruct (decide (name ∈ dom index)) as [Hin|Hnin].
  - left. split; [done|].
    destruct (build_dependency_graph limit name index) as [g|e] eqn:Hg.
    + left. exists g. split; [done|].
      apply build_dependency_graph_spec in Hg as (_ & Hkeys & _).
      apply Hkeys, rtc_refl.
    + right. destruct (decide (limit ≤ size (names index))) as [Hle|Hgt].
      * split; [done|]. unfold build_dependency_graph in Hg.
        rewrite decide_True in Hg by done.
        destruct (dfs limit index name _); [done|]. by injection Hg as <-.
      * destruct (build_dependency_graph_total index limit name Hin)
          as [g' Hg']; [lia|congruence].
  - right. split; [done|]. unfold build_dependency_graph.
    by rewrite decide_False.
Qed.

Section NoRepeat.

Implicit Types (items : list (string * list string)) (l : list string).

Lemma NoDup_keys_value items (k : string) l l' :
  NoDup items.*1 → (k, l) ∈ items → (k, l') ∈ items → l = l'.
Proof.
  induction items as [|[k0 l0] items IH]; intros Hnd Hl Hl'.
  { by apply elem_of_nil in Hl. }
  rewrite fmap_cons in Hnd. apply NoDup_cons in Hnd as [Hk0 Hnd].
  apply elem_of_cons in Hl as [Hl|Hl];
    apply elem_of_cons in Hl' as [Hl'|Hl']; simplify_eq.
  - done.
  - exfalso. apply Hk0. apply list_elem_of_fmap. by exists (k0, l').
  - exfalso. apply Hk0. apply list_elem_of_fmap. by exists (k0, l).
  - by apply IH.
Qed.

End NoRepeat.

Lemma edge_statements_NoDup (g : gmap string (gset string))
    (items : list (string * list string)) :
  graph_items g items →
  Forall (λ item, free_of ["034"%char] item.1
                  ∧ Forall (free_of ["034"%char]) item.2) items →
  NoDup (edge_statements items).
Proof.
  intros Hitems Hfree. pose proof Hitems as (Hkeys & _ & _).
  rewrite Forall_forall in Hfree. unfold edge_statements.
  apply NoDup_bind; [| |by apply (NoDup_fmap_1 fst)].
  - intros [k1 l1] [k2 l2] e H1 H2.
    intros (d1 & -> & Hd1)%list_elem_of_fmap (d2 & Heq & Hd2)%list_elem_of_fmap.
    destruct (Hfree _ H1) as [Hk1 Hl1], (Hfree _ H2) as [Hk2 Hl2].
    rewrite Forall_forall in Hl1, Hl2. simpl in *.
    apply (edge_statement_names k1 d1 k2 d2 Hk1 (Hl1 d1 Hd1) Hk2 (Hl2 d2 Hd2))
      in Heq as [-> _].
    f_equal. by apply (NoDup_keys_value items k2).
  - intros [k l] Hin. destruct (Hfree _ Hin) as [Hk Hl]. simpl in *.
    rewrite Forall_forall in Hl.
    destruct (graph_items_lookup g items k l Hitems Hin) as (s & _ & Hnd & _).
    apply NoDup_fmap_2_strong; [|done].
    intros d d' Hd Hd' Heq.
    by apply (edge_statement_names k d k d' Hk (Hl d Hd) Hk (Hl d' Hd'))
      in Heq as [_ ->].
Qed.

Lemma free_of_cons (c : ascii) (cs : list ascii) (s : string) :
  free_of (c :: cs) s ↔ Py.contains c s = false ∧ free_of cs s.
Proof. unfold free_of. by rewrite Forall_cons. Qed.

(** X18.  No line of the output is repeated.  For a graph whose names
    hold no double quote and no line break, and any iteration order, the
    lines of the output are pairwise distinct: an edge is written once,
    however often the index listed the dependency. *)
Theorem serialize_no_repeated_edge (g : gmap string (gset string))
    (items : list (string * list string)) :
  graph_items g items →
  Forall (λ item, free_of ["034"; "010"]%char item.1
                  ∧ Forall (free_of ["034"; "010"]%char) item.2) items →
  NoDup (Py.split "010" (generate_graphviz_code items)).
Proof.
  intros Hitems Hfree.
  assert (Forall (λ item, single_line item.1 ∧ Forall single_line item.2)
            items) as Hsingle.
  { eapply Forall_impl; [exact Hfree|]. intros [k l] [Hk Hl]. simpl in *.
    split; [by apply free_of_cons in Hk as [_ [? _]%free_of_cons]|].
    eapply Forall_impl; [exact Hl|]. intros d Hd.
    by apply free_of_cons in Hd as [_ [? _]%free_of_cons]. }
  assert (Forall (λ item, free_of ["034"%char] item.1
                          ∧ Forall (free_of ["034"%char]) item.2) items)
    as Hquote.
  { eapply Forall_impl; [exact Hfree|]. intros [k l] [Hk Hl]. simpl in *.
    split.
    - apply free_of_cons in Hk as [? _].
      apply free_of_cons. split; [done|constructor].
    - eapply Forall_impl; [exact Hl|]. intros d Hd.
      apply free_of_cons in Hd as [? _].
      apply free_of_cons. split; [done|constructor]. }
  rewrite generate_graphviz_code_split by done.
  assert (∀ e, e ∈ edge_statements items → e ≠ "digraph G {" ∧ e ≠ "}")
    as Hedge.
  { intros e (pkg & deps & dep & _ & _ & ->)%elem_of_edge_statements.
    rewrite edge_line_text. by split. }
  apply NoDup_app. split; [apply NoDup_singleton|]. split.
  - intros h ->%list_elem_of_singleton [He|Hf%list_elem_of_singleton]%elem_of_app;
      [by apply Hedge in He as [? _]|done].
  - apply NoDup_app. split; [by apply (edge_statements_NoDup g)|].
    split; [|apply NoDup_singleton].
    intros e He ->%list_elem_of_singleton. by apply Hedge in He as [_ ?].
Qed.

Lemma serialize_no_repeated_edge_witness :
  NoDup (Py.split "010"
           (generate_graphviz_code
              [("libgcc1", []); ("bash", ["libtinfo6"; "libc6"]);
               ("libc6", ["libgcc1"]); ("libtinfo6", [])])).
Proof.
  apply (serialize_no_repeated_edge
           {[ "bash" := {[ "libc6"; "libtinfo6" ]}; "libc6" := {[ "libgcc1" ]};
              "libtinfo6" := ∅; "libgcc1" := ∅ ]}
           [("libgcc1", []); ("bash", ["libtinfo6"; "libc6"]);
            ("libc6", ["libgcc1"]); ("libtinfo6", [])]).
  - exact graph_items_bash_graph.
  - compute_done.
Defined.

Section OtherFields.

Implicit Types (line : string) (lines : list string) (st : parser_state).
Implicit Types (info : gmap string (list string)) (cur : gmap string string).

Lemma same_record_insert cur cur' k v :
  same_record cur cur' → same_record (<[k := v]> cur) (<[k := v]> cur').
Proof.
  intros [HP HD]. split.
  - destruct (decide (k = "Package")) as [->|Hne];
      [by rewrite !lookup_insert_eq|by rewrite !lookup_insert_ne].
  - destruct (decide (k = "Depends")) as [->|Hne];
      [by rewrite !lookup_insert_eq|by rewrite !lookup_insert_ne].
Qed.

Lemma parse_line_same_record line info cur cur' st1 :
  same_record cur cur' →
  parse_line line (ParserState info cur) = Ok st1 →
  ∃ cur1', parse_line line (ParserState info cur')
             = Ok (ParserState (packages_info st1) cur1') ∧
           same_record (current_package st1) cur1'.
Proof.
  intros [HP HD] Hline.
  apply parse_line_cases in Hline
    as [[Hb [[HX ->]|(X & l & HX & Hl & ->)]]|[Hb [[Hf ->]|(k & v & Hf & ->)]]];
    unfold parse_line; simpl.
  - rewrite decide_True by done. exists ∅. split; [|done].
    apply commit_record_no_package. by rewrite <-HP.
  - rewrite decide_True by done. exists ∅. split; [|done].
    destruct (commit_record_package info cur' X) as (l' & Hl' & ->);
      [by rewrite <-HP|].
    rewrite <-HD in Hl'. congruence.
  - rewrite decide_False, record_field_spec by done. simpl.
    unfold record_fields. simpl. rewrite Hf. by exists cur'.
  - rewrite decide_False, record_field_spec by done. simpl.
    unfold record_fields. simpl. rewrite Hf.
    exists (<[k := v]> cur'). split; [done|].
    by apply same_record_insert.
Qed.

Lemma parse_lines_same_record lines info cur cur' st1 :
  same_record cur cur' →
  parse_lines lines (ParserState info cur) = Ok st1 →
  ∃ cur1', parse_lines lines (ParserState info cur')
             = Ok (ParserState (packages_info st1) cur1').
Proof.
  revert info cur cur'.
  induction lines as [|line rest IH]; intros info cur cur' Hsame; simpl.
  { intros [= <-]. by exists cur'. }
  destruct (parse_line line (ParserState info cur)) as [[i1 c1]|e] eqn:Hline;
    simpl; [|done].
  destruct (parse_line_same_record _ _ _ _ _ Hsame Hline)
    as (c1' & -> & Hsame1).
  simpl. by apply IH.
Qed.

End OtherFields.

(** X19.  Only the [Package] and [Depends] fields count.  A non-blank line
    with any other key, or with no colon at all, can be taken out of a
    text, with its line break, without changing the index. *)
Theorem parse_ignores_other_fields (a b line : string) :
  record_line line →
  key_of line ≠ Some "Package" → key_of line ≠ Some "Depends" →
  parse_packages_data (a +:+ newline +:+ line +:+ newline +:+ b)
    = parse_packages_data (a +:+ newline +:+ b).
Proof.
  intros [Hline Hsingle] HP HD. unfold parse_packages_data.
  change (a +:+ newline +:+ line +:+ newline +:+ b)
    with (a +:+ String "010" (line +:+ String "010" b)).
  change (a +:+ newline +:+ b) with (a +:+ String "010" b).
  rewrite !split_app_sep, (split_no_sep "010" line) by done.
  rewrite !parse_lines_app.
  destruct (parse_lines (Py.split "010" a) _) as [[info cur]|e]; simpl; [|done].
  unfold parse_line at 1. rewrite decide_False, record_field_spec by done.
  simpl.
  destruct (parse_lines (Py.split "010" b) (ParserState info cur))
    as [st1|e] eqn:Hb.
  - eapply parse_lines_same_record in Hb as [cur1' ->]; [done|].
    unfold record_fields, key_of in *. simpl.
    destruct (field_of line) as [[k v]|]; [|done]. simpl in *.
    split; rewrite lookup_insert_ne; congruence.
  - destruct (parse_lines_total (Py.split "010" b) (ParserState info cur))
      as [? ?]. congruence.
Qed.

Lemma parse_ignores_other_fields_witness :
  parse_packages_data
    ("Package: X" +:+ newline +:+ "Version: 1.0" +:+ newline
       +:+ ("Depends: a" +:+ newline))
  = parse_packages_data
      ("Package: X" +:+ newline +:+ ("Depends: a" +:+ newline)).
Proof.
  apply (parse_ignores_other_fields
           "Package: X" ("Depends: a" +:+ newline) "Version: 1.0");
    compute_done.
Defined.
